(** * Express tracing integration: middleware wrapping and registration patching

    A shallow embedding of [packages/tracing/src/integrations/express.ts].

    The closures the module creates are represented first-order, one
    constructor per function expression of the source, each carrying the
    variables the closure captures.  Functions supplied by the host (user
    middlewares, continuations, the framework's registration methods) are
    opaque to the module: they are identified by an index into a table of
    behaviours, a behaviour being a tree of calls the function makes. *)

From stdpp Require Import gmap strings list fin_maps pretty.

Set Warnings "-register-all".

(** ** Values *)

(** [req.route]: the matched route, of which only [path] is read. *)
Record Route := { path : string }.

(** The part of the JavaScript value universe the module touches.  Numbers
    are restricted to integers.  A request object is a value of its own
    with the five properties the module reads; a response object is a
    reference into the store, since the module reads and the host writes
    its [__sentry_transaction] property and its listeners.  The global
    object and the wrapper object around a primitive are there because a
    function that is not in strict mode has them as its [this] when it is
    called with no object as its receiver. *)
Inductive value :=
| VUndefined
| VNull
| VBool (b : bool)
| VNum (z : Z)
| VStr (s : string)
| VArr (elems : list value)
| VFun (f : func)
| VError (message : string)
| VTypeError
| VReq (method : string) (route : option Route)
       (originalUrl baseUrl query : value)
| VRes (r : nat)
| VGlobal
| VBoxed (primitive : value)
with func :=
(* a function of the host: its [name], its [length], its behaviour *)
| User (name : string) (length : nat) (body : nat)
(* the three function expressions returned by [wrap], capturing [fn] *)
| Wrapped2 (fn : func)
| Wrapped3 (fn : func)
| Wrapped4 (fn : func)
(* the continuation handed to [fn] in cases 3 and 4, capturing [span]
   and [next] *)
| WrappedNext (span : option nat) (next : value)
(* the arrow function registered with [res.once] in case 2 *)
| FinishListener (span : nat)
(* the function [patchMiddleware] installs, capturing
   [originalAppCallback] *)
| Patched (originalAppCallback : value).

(** [fn.length]: the number of declared parameters.  The [this]
    annotations of the source are TypeScript-only and are erased, and the
    continuation, the listener and the patched method declare none. *)
Definition func_length (f : func) : nat :=
  match f with
  | User _ len _ => len
  | Wrapped2 _ => 2
  | Wrapped3 _ => 3
  | Wrapped4 _ => 4
  | WrappedNext _ _ => 0
  | FinishListener _ => 0
  | Patched _ => 0
  end.

(** [fn.name]: the function expressions of the module are anonymous. *)
Definition func_name (f : func) : string :=
  match f with
  | User n _ _ => n
  | _ => ""
  end.

(** The [this] of a function that is not in strict mode, called with
    receiver [v]: the global object for [undefined] and [null], a wrapper
    object for a primitive, and [v] itself when it is an object.  The
    function expressions of the module are such functions: the file has
    no strict-mode directive, and the wrappers declare
    [this: NodeJS.Global]. *)
Definition this_binding (v : value) : value :=
  match v with
  | VUndefined | VNull => VGlobal
  | VBool _ | VNum _ | VStr _ => VBoxed v
  | _ => v
  end.

(** The receivers that are not objects. *)
Definition primitive (v : value) : bool :=
  match v with
  | VUndefined | VNull | VBool _ | VNum _ | VStr _ => true
  | _ => false
  end.

(** [arguments[i]], [undefined] past the end. *)
Definition arg (i : nat) (args : list value) : value :=
  default VUndefined (args !! i).

(** ** Synchronous results: a value or a thrown exception *)

Inductive result (A : Type) :=
| Ok (a : A)
| Err (e : value).
Arguments Ok {A} a.
Arguments Err {A} e.

#[global] Instance result_ret : MRet result := fun A a => Ok a.
#[global] Instance result_bind : MBind result := fun A B f m =>
  match m with Ok a => f a | Err e => Err e end.

#[global] Instance result_fmap : FMap result := fun A B f m =>
  match m with Ok a => Ok (f a) | Err e => Err e end.

(** ** wrap *)

Definition wrap (fn : func) : result func :=
  let arity := func_length fn in
  match arity with
  | 2 => Ok (Wrapped2 fn)
  | 3 => Ok (Wrapped3 fn)
  | 4 => Ok (Wrapped4 fn)
  | _ => Err (VError ("Express middleware takes 2-4 arguments. Got: "
                      +:+ pretty arity))
  end.

(** ** wrapUseArgs *)

(** The callback of the inner [arg.map]. *)
Definition wrapUseElem (a : value) : result value :=
  match a with
  | VFun f => VFun <$> wrap f
  | _ => Ok a
  end.

(** The callback of the outer [Array.from(args).map]. *)
Definition wrapUseArg (a : value) : result value :=
  match a with
  | VFun f => VFun <$> wrap f
  | VArr l => VArr <$> mapM wrapUseElem l
  | _ => Ok a
  end.

Definition wrapUseArgs (args : list value) : result (list value) :=
  mapM wrapUseArg args.

(** ** The store and the trace of host calls *)

(** Modelled from the spec: the host's [Transaction], "a human-readable
    name and a key-value metadata set"; [setData] writes one key. *)
Record Transaction := {
  name : string;
  data : gmap string value;
}.

(** The response object: the reserved property and, modelled from the
    spec, the callbacks registered with [once] under their event name. *)
Record Response := {
  __sentry_transaction : option nat;
  listeners : list (string * func);
}.

(** What the module does to its collaborators, in the order it does it. *)
Inductive event :=
| LoggerError (message : string)
| SetName (transaction : nat) (n : string)
| SetData (transaction : nat) (key : string) (v : value)
| StartChild (transaction : nat) (description op : string) (span : nat)
| Finish (span : nat)
| Once (res : nat) (ev : string) (callback : func)
(* a function of the host is entered with this receiver and arguments *)
| Enter (f : func) (this : value) (args : list value).

Record world := {
  transactions : gmap nat Transaction;
  responses : gmap nat Response;
  apps : gmap nat (gmap string value);
  next_span : nat;
  trace : list event;
}.

Definition emit (e : event) (w : world) : world :=
  {| transactions := transactions w; responses := responses w;
     apps := apps w; next_span := next_span w;
     trace := trace w ++ [e] |}.

Definition empty_transaction : Transaction := {| name := ""; data := ∅ |}.

Definition update_transaction (t : nat) (f : Transaction → Transaction)
    (w : world) : world :=
  {| transactions :=
       <[t := f (default empty_transaction (transactions w !! t))]>
         (transactions w);
     responses := responses w; apps := apps w; next_span := next_span w;
     trace := trace w |}.

Definition empty_response : Response :=
  {| __sentry_transaction := None; listeners := [] |}.

Definition update_response (r : nat) (f : Response → Response)
    (w : world) : world :=
  {| transactions := transactions w;
     responses :=
       <[r := f (default empty_response (responses w !! r))]> (responses w);
     apps := apps w; next_span := next_span w; trace := trace w |}.

Definition update_app (a : nat) (f : gmap string value → gmap string value)
    (w : world) : world :=
  {| transactions := transactions w; responses := responses w;
     apps := <[a := f (default ∅ (apps w !! a))]> (apps w);
     next_span := next_span w; trace := trace w |}.

(** ** Computations: state, exceptions, and a bound on nested calls *)

Inductive outcome (A : Type) :=
| Returns (a : A)
| Throws (e : value)
| OutOfFuel.
Arguments Returns {A} a.
Arguments Throws {A} e.
Arguments OutOfFuel {A}.

Definition M (A : Type) : Type := world → outcome A * world.

#[global] Instance M_ret : MRet M := fun A a w => (Returns a, w).
#[global] Instance M_bind : MBind M := fun A B f m w =>
  match m w with
  | (Returns a, w') => f a w'
  | (Throws e, w') => (Throws e, w')
  | (OutOfFuel, w') => (OutOfFuel, w')
  end.

Definition throw {A} (e : value) : M A := fun w => (Throws e, w).

Definition lift {A} (r : result A) : M A :=
  match r with Ok a => mret a | Err e => throw e end.

Definition modify (f : world → world) : M unit := fun w => (Returns (), f w).

(** ** Host interfaces *)

(** [logger.error(message)] *)
Definition logger_error (message : string) : M unit :=
  modify (emit (LoggerError message)).

(** [transaction.name = n] *)
Definition set_name (t : nat) (n : string) : M unit :=
  modify (fun w =>
    emit (SetName t n)
      (update_transaction t (fun tx => {| name := n; data := data tx |}) w)).

(** [transaction.setData(key, v)] *)
Definition setData (t : nat) (key : string) (v : value) : M unit :=
  modify (fun w =>
    emit (SetData t key v)
      (update_transaction t
         (fun tx => {| name := name tx; data := <[key := v]> (data tx) |}) w)).

(** Modelled from the spec: [transaction.startChild({description, op})]
    returns a new span. *)
Definition startChild (t : nat) (description op : string) : M nat := fun w =>
  let span := next_span w in
  (Returns span,
   emit (StartChild t description op span)
     {| transactions := transactions w; responses := responses w;
        apps := apps w; next_span := S span; trace := trace w |}).

(** [span.finish()] *)
Definition finish (span : nat) : M unit := modify (emit (Finish span)).

(** [res.__sentry_transaction]: reading a property of [undefined] or
    [null] throws, any other value without the property gives
    [undefined]. *)
Definition get_sentry_transaction (res : value) : M (option nat) := fun w =>
  match res with
  | VUndefined | VNull => (Throws VTypeError, w)
  | VRes r => (Returns (responses w !! r ≫= __sentry_transaction), w)
  | _ => (Returns None, w)
  end.

(** Modelled from the spec: [res.once(ev, callback)], the response's
    one-shot "register completion callback" operation. *)
Definition once (res : value) (ev : string) (callback : func) : M unit :=
  match res with
  | VRes r =>
      modify (fun w =>
        emit (Once r ev callback)
          (update_response r (fun rs =>
             {| __sentry_transaction := __sentry_transaction rs;
                listeners := listeners rs ++ [(ev, callback)] |}) w))
  | _ => throw VTypeError
  end.

(** [req.route], [req.method], [req.originalUrl], [req.baseUrl],
    [req.query] *)
Definition get_route (req : value) : M (option Route) :=
  match req with
  | VUndefined | VNull => throw VTypeError
  | VReq _ route _ _ _ => mret route
  | _ => mret None
  end.

Definition get_method (req : value) : M string :=
  match req with
  | VUndefined | VNull => throw VTypeError
  | VReq method _ _ _ _ => mret method
  | _ => mret "undefined"
  end.

Definition get_originalUrl (req : value) : M value :=
  match req with
  | VUndefined | VNull => throw VTypeError
  | VReq _ _ originalUrl _ _ => mret originalUrl
  | _ => mret VUndefined
  end.

Definition get_baseUrl (req : value) : M value :=
  match req with
  | VUndefined | VNull => throw VTypeError
  | VReq _ _ _ baseUrl _ => mret baseUrl
  | _ => mret VUndefined
  end.

Definition get_query (req : value) : M value :=
  match req with
  | VUndefined | VNull => throw VTypeError
  | VReq _ _ _ _ query => mret query
  | _ => mret VUndefined
  end.

(** A string is truthy when it is not empty. *)
Definition truthy_string (s : string) : bool :=
  match s with EmptyString => false | _ => true end.

(** ** addExpressReqToTransaction *)

Definition addExpressReqToTransaction (transaction : option nat)
    (req : value) : M unit :=
  match transaction with
  | Some t =>
      route ← get_route req;
      match route with
      | Some rt =>
          if truthy_string (path rt) then
            method ← get_method req;
            set_name t (method +:+ " " +:+ path rt)
          else mret ()
      | None => mret ()
      end;;
      originalUrl ← get_originalUrl req;
      setData t "url" originalUrl;;
      baseUrl ← get_baseUrl req;
      setData t "baseUrl" baseUrl;;
      query ← get_query req;
      setData t "query" query
  | None => mret ()
  end.

(** ** Functions of the host *)

(** What a function of the host does when it is entered: it returns,
    throws, or calls some value as a function and goes on from the result
    of that call, which it may catch. *)
Inductive act :=
| Return (v : value)
| Throw (e : value)
| Invoke (f : value) (this : value) (args : list value)
         (k : outcome value → act).

Section Semantics.

(** The behaviour of the host's functions, by their index, from the
    receiver and the arguments they are entered with. *)
Variable code : nat → value → list value → act.

(** Running a behaviour, given how to call a value. *)
Fixpoint run (apply : value → value → list value → M value) (a : act)
    : M value := fun w =>
  match a with
  | Return v => (Returns v, w)
  | Throw e => (Throws e, w)
  | Invoke f this args k =>
      match apply f this args w with
      | (OutOfFuel, w') => (OutOfFuel, w')
      | (o, w') => run apply (k o) w'
      end
  end.

(** [f.apply(this, args)] and [f.call(this, ...args)], with [call] the
    semantics of functions; a value that is not a function cannot be
    called. *)
Definition apply_with (call : func → value → list value → M value)
    (f : value) (this : value) (args : list value) : M value :=
  match f with
  | VFun g => call g this args
  | _ => throw VTypeError
  end.

(** Calling a function with a receiver and an argument list.  [n] bounds
    the depth of nested calls.  A function of the host is entered with
    the receiver it is called with; what it makes of it is part of its
    behaviour. *)
Fixpoint call (n : nat) (f : func) (this : value) (args : list value)
    {struct n} : M value :=
  match n with
  | 0 => fun w => (OutOfFuel, w)
  | S n =>
    let apply := apply_with (call n) in
    match f with
    | User _ _ body =>
        modify (emit (Enter f this args));;
        run apply (code body this args)
    | Wrapped2 fn =>
        let this := this_binding this in
        let req := arg 0 args in
        let res := arg 1 args in
        transaction ← get_sentry_transaction res;
        addExpressReqToTransaction transaction req;;
        match transaction with
        | Some t =>
            span ← startChild t (func_name fn) "middleware";
            once res "finish" (FinishListener span)
        | None => mret ()
        end;;
        apply (VFun fn) this args
    | Wrapped3 fn =>
        let this := this_binding this in
        let req := arg 0 args in
        let res := arg 1 args in
        let next := arg 2 args in
        transaction ← get_sentry_transaction res;
        addExpressReqToTransaction transaction req;;
        span ← match transaction with
               | Some t =>
                   s ← startChild t (func_name fn) "middleware";
                   mret (Some s)
               | None => mret None
               end;
        apply (VFun fn) this [req; res; VFun (WrappedNext span next)];;
        mret VUndefined
    | Wrapped4 fn =>
        let this := this_binding this in
        let err := arg 0 args in
        let req := arg 1 args in
        let res := arg 2 args in
        let next := arg 3 args in
        transaction ← get_sentry_transaction res;
        addExpressReqToTransaction transaction req;;
        span ← match transaction with
               | Some t =>
                   s ← startChild t (func_name fn) "middleware";
                   mret (Some s)
               | None => mret None
               end;
        apply (VFun fn) this [err; req; res; VFun (WrappedNext span next)];;
        mret VUndefined
    | WrappedNext span next =>
        let this := this_binding this in
        match span with
        | Some s => finish s
        | None => mret ()
        end;;
        apply next this args
    | FinishListener span =>
        finish span;;
        mret VUndefined
    | Patched originalAppCallback =>
        let this := this_binding this in
        match originalAppCallback with
        | VUndefined | VNull => throw VTypeError
        | _ =>
            args' ← lift (wrapUseArgs args);
            apply originalAppCallback this args'
        end
    end
  end.

End Semantics.

(** ** The integration object and its setup *)

Module Verb.

(** The request methods a registration method exists for. *)
Inductive Method :=
| all | get | post | put | delete | patch | options | head | checkout
| copy | lock | merge | mkactivity | mkcol | move | m_search | notify
| purge | report | search | subscribe | trace | unlock | unsubscribe.

(** The property of the application object the method is registered
    under. *)
Definition key (m : Method) : string :=
  match m with
  | all => "all" | get => "get" | post => "post" | put => "put"
  | delete => "delete" | patch => "patch" | options => "options"
  | head => "head" | checkout => "checkout" | copy => "copy"
  | lock => "lock" | merge => "merge" | mkactivity => "mkactivity"
  | mkcol => "mkcol" | move => "move" | m_search => "m-search"
  | notify => "notify" | purge => "purge" | report => "report"
  | search => "search" | subscribe => "subscribe" | trace => "trace"
  | unlock => "unlock" | unsubscribe => "unsubscribe"
  end.

End Verb.

(** An application object is a reference into the store: patching
    assigns to a property of the object the host goes on using. *)
Record Express := {
  _app : option nat;
  _methods : option (list Verb.Method);
}.

(** The value of property [k] of application [app], [undefined] when
    there is none. *)
Definition member (w : world) (app : nat) (k : string) : value :=
  default VUndefined (apps w !! app ≫= (.!! k)).

(** [app[method]] *)
Definition get_member (app : nat) (method : string) : M value := fun w =>
  (Returns (member w app method), w).

(** [app[method] = v] *)
Definition set_member (app : nat) (method : string) (v : value) : M unit :=
  modify (update_app app (fun o => <[method := v]> o)).

Definition patchMiddleware (app : nat) (method : string) : M nat :=
  originalAppCallback ← get_member app method;
  set_member app method (VFun (Patched originalAppCallback));;
  mret app.

Definition instrumentMiddlewares (app : nat) : M unit :=
  patchMiddleware app "use";;
  mret ().

Fixpoint forEach {A} (l : list A) (f : A → M unit) : M unit :=
  match l with
  | [] => mret ()
  | x :: l => f x;; forEach l f
  end.

Definition routeMiddlewares (app : nat) (methods : option (list Verb.Method))
    : M unit :=
  let methods := default [] methods in
  forEach methods (fun method =>
    patchMiddleware app (Verb.key method);;
    mret ()).

Definition setupOnce (this : Express) : M unit :=
  match _app this with
  | None => logger_error "ExpressIntegration is missing an Express instance"
  | Some app =>
      instrumentMiddlewares app;;
      routeMiddlewares app (_methods this)
  end.

(** ** Reading the store *)

(** The transaction attached to response [r], if any. *)
Definition attached (w : world) (r : nat) : option nat :=
  responses w !! r ≫= __sentry_transaction.

(** The state of transaction [t]. *)
Definition transaction_of (w : world) (t : nat) : Transaction :=
  default empty_transaction (transactions w !! t).

(** The name the module derives from a request of method [m] and route
    [rt], when it derives one. *)
Definition route_name (m : string) (rt : option Route) : option string :=
  match rt with
  | Some r => if truthy_string (path r) then Some (m +:+ " " +:+ path r)
              else None
  | None => None
  end.

(** The position of the request among the parameters of a wrapper; the
    response follows it. *)
Definition req_position (g : func) : nat :=
  match g with Wrapped4 _ => 1 | _ => 0 end.

(** ** The statements of a wrapper that precede the call of [fn] *)

Definition before2 (fn : func) (args : list value) : M unit :=
  let req := arg 0 args in
  let res := arg 1 args in
  transaction ← get_sentry_transaction res;
  addExpressReqToTransaction transaction req;;
  match transaction with
  | Some t =>
      span ← startChild t (func_name fn) "middleware";
      once res "finish" (FinishListener span)
  | None => mret ()
  end.

Definition before34 (fn : func) (req res : value) : M (option nat) :=
  transaction ← get_sentry_transaction res;
  addExpressReqToTransaction transaction req;;
  match transaction with
  | Some t =>
      s ← startChild t (func_name fn) "middleware";
      mret (Some s)
  | None => mret None
  end.

(** ** What a registration call substitutes, in the words of the spec *)

(** An element of a list argument: a function is replaced by its wrapped
    version, anything else is passed through. *)
Definition substituted_elem (a a' : value) : Prop :=
  match a with
  | VFun f => ∃ g, wrap f = Ok g ∧ a' = VFun g
  | _ => a' = a
  end.

(** An argument: a function is replaced by its wrapped version, a list by
    the list of its substituted elements, anything else is passed
    through. *)
Definition substituted_arg (a a' : value) : Prop :=
  match a with
  | VFun f => ∃ g, wrap f = Ok g ∧ a' = VFun g
  | VArr l => ∃ l', a' = VArr l' ∧ Forall2 substituted_elem l l'
  | _ => a' = a
  end.

(** A value [wrap] accepts wherever it is a function. *)
Definition wrappable (a : value) : Prop :=
  ∀ f, a = VFun f → 2 ≤ func_length f ≤ 4.

(** The functions of an argument list that a registration call wraps:
    the arguments themselves and the elements of list arguments. *)
Definition registered (f : func) (args : list value) : Prop :=
  VFun f ∈ args ∨ ∃ l, VArr l ∈ args ∧ VFun f ∈ l.

(** The error [wrap] throws for a function of [arity] parameters. *)
Definition arity_error (arity : nat) : value :=
  VError ("Express middleware takes 2-4 arguments. Got: " +:+ pretty arity).

(** ** Counting the times a span is finished *)

Definition is_finish (span : nat) (e : event) : bool :=
  match e with
  | Finish s => bool_decide (s = span)
  | _ => false
  end.

Fixpoint finishes (span : nat) (tr : list event) : nat :=
  match tr with
  | [] => 0
  | e :: tr => (if is_finish span e then 1 else 0) + finishes span tr
  end.

(** ** A sample host *)

Module Sample.

(** Behaviours: 0 returns at once; 1 calls its third argument, the
    continuation, once and returns what it returned; 2 calls its third
    argument twice; 3 is a registration method, which returns its
    receiver. *)
Definition code (body : nat) (this : value) (args : list value) : act :=
  match body with
  | 0 => Return (VNum 42)
  | 1 => Invoke (arg 2 args) VUndefined []
           (fun o => match o with Returns v => Return v | _ => Throw VNull end)
  | 2 => Invoke (arg 2 args) VUndefined []
           (fun _ => Invoke (arg 2 args) VUndefined []
                       (fun _ => Return VUndefined))
  | _ => Return this
  end.

Definition fnA : func := User "fnA" 2 0.
Definition fnB : func := User "fnB" 3 1.
Definition fnC : func := User "fnC" 3 0.
Definition twice : func := User "twice" 3 2.
Definition errorHandler : func := User "errorHandler" 4 0.
Definition next : func := User "next" 0 0.
Definition use : func := User "use" 0 3.
Definition unary : func := User "unary" 1 0.

Definition req : value :=
  VReq "GET" (Some {| path := "/users/:id" |})
       (VStr "/api/users/7?full=1") (VStr "/api") (VStr "full=1").

(** Response 0 carries transaction 5, response 1 carries none;
    application 0 has a [use] and a [get] method. *)
Definition w : world :=
  {| transactions := {[ 5 := {| name := "unnamed"; data := ∅ |} ]};
     responses :=
       {[ 0 := {| __sentry_transaction := Some 5; listeners := [] |};
          1 := {| __sentry_transaction := None; listeners := [] |} ]};
     apps := {[ 0 := {[ "use" := VFun use; "get" := VFun use ]} ]};
     next_span := 0;
     trace := [] |}.

End Sample.

(** ** The call of [fn] inside a wrapper *)

(** What a wrapper does before it calls [fn], and the argument list it
    calls [fn] with. *)
Definition handler_entry (g : func) (args : list value) : M (list value) :=
  match g with
  | Wrapped2 fn => before2 fn args;; mret args
  | Wrapped3 fn =>
      span ← before34 fn (arg 0 args) (arg 1 args);
      mret [arg 0 args; arg 1 args; VFun (WrappedNext span (arg 2 args))]
  | Wrapped4 fn =>
      span ← before34 fn (arg 1 args) (arg 2 args);
      mret [arg 0 args; arg 1 args; arg 2 args;
            VFun (WrappedNext span (arg 3 args))]
  | _ => mret args
  end.

(** The callbacks registered on response [r]. *)
Definition listeners_of (w : world) (r : nat) : list (string * func) :=
  listeners (default empty_response (responses w !! r)).




(** ** A second sample host *)

Module Host.

(** Behaviours: 0 throws; 1 is a registration method, which returns the
    list of the arguments it is called with; the others return at once. *)
Definition code (body : nat) (this : value) (args : list value) : act :=
  match body with
  | 0 => Throw (VError "boom")
  | 1 => Return (VArr args)
  | _ => Return VUndefined
  end.

Definition failing2 : func := User "failing2" 2 0.
Definition failing3 : func := User "failing3" 3 0.
Definition silent3 : func := User "silent3" 3 2.
Definition handler4 : func := User "handler4" 4 2.
Definition next : func := User "next" 0 2.
Definition use : func := User "use" 0 1.

Definition req : value :=
  VReq "POST" (Some {| path := "/items" |})
       (VStr "/shop/items") (VStr "/shop") (VArr []).

(** Response 0 carries transaction 3, response 1 carries none;
    application 0 has a [use] method and nothing else. *)
Definition w : world :=
  {| transactions := ∅;
     responses :=
       {[ 0 := {| __sentry_transaction := Some 3;
                  listeners := [("close", next)] |};
          1 := {| __sentry_transaction := None; listeners := [] |} ]};
     apps := {[ 0 := {[ "use" := VFun use ]} ]};
     next_span := 7;
     trace := [] |}.

End Host.

(** Case analysis on membership in a list given by its elements. *)
Ltac elem_cases H :=
  repeat (apply elem_of_cons in H as [H|H]);
  [..|by apply elem_of_nil in H].

(** * Properties *)

(** ** Mapping a fallible function over a list *)

Section MapM.

Context {A B : Type} (f : A → result B).

Lemma mapM_result_nil : mapM f [] = Ok [].
Proof. reflexivity. Qed.

Lemma mapM_result_cons x l :
  mapM f (x :: l) =
  match f x with
  | Ok y => match mapM f l with Ok k => Ok (y :: k) | Err e => Err e end
  | Err e => Err e
  end.
Proof. reflexivity. Qed.

Lemma mapM_result_Forall2 (R : A → B → Prop) l :
  (∀ x y, x ∈ l → f x = Ok y → R x y) →
  ∀ k, mapM f l = Ok k → Forall2 R l k.
Proof.
  induction l as [|x l IH]; intros HR k.
  - rewrite mapM_result_nil. intros [= <-]. constructor.
  - rewrite mapM_result_cons.
    destruct (f x) as [y|e] eqn:Hx; [|discriminate].
    destruct (mapM f l) as [k'|e]; [|discriminate].
    intros [= <-]. constructor.
    + apply HR; [left | exact Hx].
    + apply IH; [|reflexivity]. intros x' y' Hin. apply HR. by right.
Qed.

Lemma mapM_result_total l :
  (∀ x, x ∈ l → ∃ y, f x = Ok y) → ∃ k, mapM f l = Ok k.
Proof.
  induction l as [|x l IH]; intros Hok.
  - by exists [].
  - destruct (Hok x) as [y Hy]; [left|].
    destruct IH as [k Hk]; [intros x' Hin; apply Hok; by right|].
    exists (y :: k). by rewrite mapM_result_cons, Hy, Hk.
Qed.

Lemma mapM_result_fails l x e :
  x ∈ l → f x = Err e → ∃ e', mapM f l = Err e'.
Proof.
  induction l as [|a l IH]; intros Hin Hx.
  - by apply elem_of_nil in Hin.
  - rewrite mapM_result_cons.
    destruct (f a) as [y|e'] eqn:Ha; [|by exists e'].
    apply elem_of_cons in Hin as [->|Hin]; [congruence|].
    destruct (IH Hin Hx) as (e' & ->). by exists e'.
Qed.

(** A failure of the map is the failure of one of the elements. *)
Lemma mapM_result_Err_inv l e :
  mapM f l = Err e → ∃ x, x ∈ l ∧ f x = Err e.
Proof.
  induction l as [|a l IH].
  - rewrite mapM_result_nil. discriminate.
  - rewrite mapM_result_cons. destruct (f a) as [y|e1] eqn:Ha.
    + destruct (mapM f l) as [k|e2]; [discriminate|].
      intros [= ->]. destruct IH as (x & Hx & Hex); [done|].
      exists x. split; [by right|done].
    + intros [= ->]. exists a. split; [left|done].
Qed.

End MapM.

(** ** Arities *)

Lemma wrap_accepts fn :
  2 ≤ func_length fn ≤ 4 →
  wrap fn = Ok match func_length fn with
               | 2 => Wrapped2 fn
               | 3 => Wrapped3 fn
               | _ => Wrapped4 fn
               end.
Proof.
  intros [Hlo Hhi]. unfold wrap.
  destruct (func_length fn) as [|[|[|[|[|k]]]]]; (reflexivity || lia).
Qed.

Lemma wrap_rejects fn :
  ¬ (2 ≤ func_length fn ≤ 4) → wrap fn = Err (arity_error (func_length fn)).
Proof.
  intros Hout. unfold wrap, arity_error.
  destruct (func_length fn) as [|[|[|[|[|k]]]]]; (reflexivity || lia).
Qed.

Lemma wrap_Ok_inv fn g :
  wrap fn = Ok g →
  (func_length fn = 2 ∧ g = Wrapped2 fn) ∨
  (func_length fn = 3 ∧ g = Wrapped3 fn) ∨
  (func_length fn = 4 ∧ g = Wrapped4 fn).
Proof.
  unfold wrap.
  destruct (func_length fn) as [|[|[|[|[|k]]]]]; intros [= <-]; auto.
Qed.

(** C1: for a handler whose declared arity is 2, 3 or 4, [wrap] returns a
    replacement function, and the replacement declares as many parameters
    as the original. *)
Theorem wrap_preserves_arity (fn : func) :
  func_length fn ∈ [2; 3; 4] →
  ∃ g, wrap fn = Ok g ∧ func_length g = func_length fn.
Proof.
  intros Hin. unfold wrap.
  repeat (apply elem_of_cons in Hin as [->|Hin]; [eexists; split; reflexivity|]).
  by apply elem_of_nil in Hin.
Qed.

Lemma wrap_preserves_arity_witness :
  ∃ g, wrap (User "handler" 3 0) = Ok g ∧ func_length g = 3.
Proof.
  apply (wrap_preserves_arity (User "handler" 3 0)).
  simpl. apply list_elem_of_In. simpl. auto.
Defined.

(** ** The receiver of a function that is not in strict mode *)

Lemma this_binding_object v : primitive v = false → this_binding v = v.
Proof. by destruct v. Qed.

Lemma this_binding_idemp v : this_binding (this_binding v) = this_binding v.
Proof. by destruct v. Qed.

(** ** Unfolding calls *)

Section Calls.

Variable code : nat → value → list value → act.

Lemma call_Wrapped2 n fn this args w :
  call code (S n) (Wrapped2 fn) this args w =
  (before2 fn args;; call code n fn (this_binding this) args) w.
Proof.
  simpl. unfold before2, mbind, M_bind.
  destruct (get_sentry_transaction (arg 1 args) w) as [[tr| |] w1]; try done.
  destruct (addExpressReqToTransaction tr (arg 0 args) w1) as [[[]| |] w2];
    done.
Qed.

Lemma call_Wrapped3 n fn this args w :
  call code (S n) (Wrapped3 fn) this args w =
  (span ← before34 fn (arg 0 args) (arg 1 args);
   call code n fn (this_binding this)
     [arg 0 args; arg 1 args; VFun (WrappedNext span (arg 2 args))];;
   mret VUndefined) w.
Proof.
  simpl. unfold before34, mbind, M_bind.
  destruct (get_sentry_transaction (arg 1 args) w) as [[tr| |] w1]; try done.
  destruct (addExpressReqToTransaction tr (arg 0 args) w1) as [[[]| |] w2];
    done.
Qed.

Lemma call_Wrapped4 n fn this args w :
  call code (S n) (Wrapped4 fn) this args w =
  (span ← before34 fn (arg 1 args) (arg 2 args);
   call code n fn (this_binding this)
     [arg 0 args; arg 1 args; arg 2 args;
      VFun (WrappedNext span (arg 3 args))];;
   mret VUndefined) w.
Proof.
  simpl. unfold before34, mbind, M_bind.
  destruct (get_sentry_transaction (arg 2 args) w) as [[tr| |] w1]; try done.
  destruct (addExpressReqToTransaction tr (arg 1 args) w1) as [[[]| |] w2];
    done.
Qed.

Lemma call_WrappedNext n span next this args w :
  call code (S n) (WrappedNext span next) this args w =
  apply_with (call code n) next (this_binding this) args
    match span with Some s => emit (Finish s) w | None => w end.
Proof. by destruct span. Qed.

Lemma call_Patched n o this args w :
  call code (S n) (Patched (VFun o)) this args w =
  match wrapUseArgs args with
  | Ok args' => call code n o (this_binding this) args' w
  | Err e => (Throws e, w)
  end.
Proof. simpl. unfold mbind, M_bind. by destruct (wrapUseArgs args). Qed.

End Calls.

(** ** Wrapping the arguments of a registration call *)

Lemma wrapUseElem_substituted a a' :
  wrapUseElem a = Ok a' → substituted_elem a a'.
Proof.
  destruct a; simpl; try (intros [= <-]; reflexivity).
  destruct (wrap f) as [g|e] eqn:Hg; simpl; [|discriminate].
  intros [= <-]. by exists g.
Qed.

Lemma wrapUseArg_substituted a a' :
  wrapUseArg a = Ok a' → substituted_arg a a'.
Proof.
  destruct a; simpl; try (intros [= <-]; reflexivity).
  - destruct (mapM wrapUseElem elems) as [l'|e] eqn:Hl; simpl; [|discriminate].
    intros [= <-]. exists l'. split; [done|].
    apply (mapM_result_Forall2 wrapUseElem substituted_elem elems); [|done].
    intros x y _. apply wrapUseElem_substituted.
  - destruct (wrap f) as [g|e] eqn:Hg; simpl; [|discriminate].
    intros [= <-]. by exists g.
Qed.

Lemma wrapUseElem_total a : wrappable a → ∃ a', wrapUseElem a = Ok a'.
Proof.
  intros Hw. destruct a; simpl; eauto.
  rewrite wrap_accepts by by apply Hw. simpl. eauto.
Qed.

Lemma wrapUseArg_total a :
  wrappable a → (∀ l x, a = VArr l → x ∈ l → wrappable x) →
  ∃ a', wrapUseArg a = Ok a'.
Proof.
  intros Hw Hl. destruct a; simpl; eauto.
  - destruct (mapM_result_total wrapUseElem elems) as [k ->]; simpl; eauto.
    intros x Hx. apply wrapUseElem_total. by apply (Hl elems).
  - rewrite wrap_accepts by by apply Hw. simpl. eauto.
Qed.

Lemma wrapUseArgs_total args :
  (∀ a, a ∈ args → wrappable a) →
  (∀ l a, VArr l ∈ args → a ∈ l → wrappable a) →
  ∃ out, wrapUseArgs args = Ok out ∧ Forall2 substituted_arg args out.
Proof.
  intros Hargs Hlists.
  destruct (mapM_result_total wrapUseArg args) as [out Hout].
  - intros a Ha. apply wrapUseArg_total; [by apply Hargs|].
    intros l x -> Hx. by apply (Hlists l).
  - exists out. split; [done|].
    apply (mapM_result_Forall2 wrapUseArg substituted_arg args); [|done].
    intros x y _. apply wrapUseArg_substituted.
Qed.

Lemma wrap_Err_inv fn e :
  wrap fn = Err e →
  ¬ (2 ≤ func_length fn ≤ 4) ∧ e = arity_error (func_length fn).
Proof.
  intros He. destruct (decide (2 ≤ func_length fn ≤ 4)) as [Hok|Hbad].
  - by rewrite wrap_accepts in He.
  - rewrite wrap_rejects in He by done. by injection He as <-.
Qed.

Lemma wrapUseElem_Err_inv a e :
  wrapUseElem a = Err e →
  ∃ f, a = VFun f ∧ ¬ (2 ≤ func_length f ≤ 4) ∧
       e = arity_error (func_length f).
Proof.
  destruct a; simpl; try discriminate.
  destruct (wrap f) as [g|e'] eqn:Hf; simpl; [discriminate|].
  intros [= ->]. exists f. split; [done|]. by apply wrap_Err_inv.
Qed.

Lemma wrapUseArgs_Err_inv args e :
  wrapUseArgs args = Err e →
  ∃ f, registered f args ∧ ¬ (2 ≤ func_length f ≤ 4) ∧
       e = arity_error (func_length f).
Proof.
  intros He. apply mapM_result_Err_inv in He as (a & Ha & He).
  destruct a; simpl in He; try discriminate.
  - destruct (mapM wrapUseElem elems) as [k|e'] eqn:Hk; simpl in He;
      [discriminate|]. injection He as ->.
    apply mapM_result_Err_inv in Hk as (x & Hx & Hex).
    apply wrapUseElem_Err_inv in Hex as (f & -> & Hbad & ->).
    exists f. split; [right; by exists elems|done].
  - destruct (wrap f) as [g|e'] eqn:Hf; simpl in He; [discriminate|].
    injection He as ->. apply wrap_Err_inv in Hf as [Hbad ->].
    exists f. split; [by left|done].
Qed.

Lemma wrapUseArgs_rejects fn args :
  registered fn args → ¬ (2 ≤ func_length fn ≤ 4) →
  ∃ fn', registered fn' args ∧ ¬ (2 ≤ func_length fn' ≤ 4) ∧
         wrapUseArgs args = Err (arity_error (func_length fn')).
Proof.
  intros Hreg Hout.
  assert (∃ e, wrapUseArgs args = Err e) as [e He].
  { destruct Hreg as [Hin|(l & Hl & Hin)].
    - apply (mapM_result_fails wrapUseArg args (VFun fn)
               (arity_error (func_length fn)) Hin).
      simpl. by rewrite wrap_rejects.
    - destruct (mapM_result_fails wrapUseElem l (VFun fn)
                  (arity_error (func_length fn)) Hin) as [e Hm].
      { simpl. by rewrite wrap_rejects. }
      apply (mapM_result_fails wrapUseArg args (VArr l) e Hl).
      simpl. by rewrite Hm. }
  destruct (wrapUseArgs_Err_inv args e He) as (fn' & Hreg' & Hbad & ->).
  by exists fn'.
Qed.

(** C2: for a function whose declared arity is outside 2..4, [wrap] does
    not return a wrapper but throws, at wrap time; a patched registration
    method that is handed such a function throws that error to its caller
    and neither calls the original method nor changes anything. *)
Theorem wrap_rejects_other_arities (fn : func) :
  ¬ (2 ≤ func_length fn ≤ 4) →
  wrap fn = Err (arity_error (func_length fn)) ∧
  ∀ code n o this args w,
    registered fn args →
    ∃ fn', registered fn' args ∧ ¬ (2 ≤ func_length fn' ≤ 4) ∧
      call code (S n) (Patched (VFun o)) this args w =
      (Throws (arity_error (func_length fn')), w).
Proof.
  intros Hout. split; [by apply wrap_rejects|].
  intros code n o this args w Hreg.
  destruct (wrapUseArgs_rejects fn args Hreg Hout) as (fn' & Hreg' & Hout' & He).
  exists fn'. split; [done|]. split; [done|].
  by rewrite call_Patched, He.
Qed.

Lemma wrap_rejects_other_arities_witness :
  wrap Sample.unary = Err (arity_error 1) ∧
  ∀ code n o this args w,
    registered Sample.unary args →
    ∃ fn', registered fn' args ∧ ¬ (2 ≤ func_length fn' ≤ 4) ∧
      call code (S n) (Patched (VFun o)) this args w =
      (Throws (arity_error (func_length fn')), w).
Proof. apply (wrap_rejects_other_arities Sample.unary). simpl. lia. Defined.

(** C6: in the argument list of a registration call, a list such as
    [[fnA, "/path", fnB]] is mapped to a list of the same length and order,
    in which each function is individually wrapped and every other
    element, a nested list included, is passed through unchanged. *)
Theorem wrapUseArgs_wraps_list_elements (args : list value) :
  (∀ a, a ∈ args → wrappable a) →
  (∀ l a, VArr l ∈ args → a ∈ l → wrappable a) →
  ∃ out, wrapUseArgs args = Ok out ∧ length out = length args ∧
    ∀ i l, args !! i = Some (VArr l) →
      ∃ l', out !! i = Some (VArr l') ∧ length l' = length l ∧
        ∀ j a, l !! j = Some a →
          match a with
          | VFun f => ∃ g, wrap f = Ok g ∧ l' !! j = Some (VFun g)
          | _ => l' !! j = Some a
          end.
Proof.
  intros Hargs Hlists.
  destruct (wrapUseArgs_total args Hargs Hlists) as (out & Hout & Hsub).
  exists out. split; [done|]. split; [symmetry; by eapply Forall2_length|].
  intros i l Hi.
  destruct (Forall2_lookup_l _ _ _ _ _ Hsub Hi) as (a' & Hi' & l' & -> & Hl).
  exists l'. split; [done|]. split; [symmetry; by eapply Forall2_length|].
  intros j a Hj.
  destruct (Forall2_lookup_l _ _ _ _ _ Hl Hj) as (b & Hj' & Hb).
  destruct a; simpl in Hb; try by subst b.
  destruct Hb as (g & Hg & ->). by exists g.
Qed.

Lemma wrapUseArgs_wraps_list_elements_witness :
  ∃ out,
    wrapUseArgs [VArr [VFun Sample.fnA; VStr "/path"; VFun Sample.fnB]]
      = Ok out ∧
    length out = 1 ∧
    ∀ i l,
      [VArr [VFun Sample.fnA; VStr "/path"; VFun Sample.fnB]] !! i
        = Some (VArr l) →
      ∃ l', out !! i = Some (VArr l') ∧ length l' = length l ∧
        ∀ j a, l !! j = Some a →
          match a with
          | VFun f => ∃ g, wrap f = Ok g ∧ l' !! j = Some (VFun g)
          | _ => l' !! j = Some a
          end.
Proof.
  apply (wrapUseArgs_wraps_list_elements
           [VArr [VFun Sample.fnA; VStr "/path"; VFun Sample.fnB]]).
  - intros a Ha f ->. elem_cases Ha. discriminate.
  - intros l a Hl Ha f ->. elem_cases Hl. injection Hl as ->.
    elem_cases Ha; try discriminate; injection Ha as ->; simpl; lia.
Defined.

Example wrapUseArgs_list :
  wrapUseArgs [VArr [VFun Sample.fnA; VStr "/path"; VFun Sample.fnB]] =
  Ok [VArr [VFun (Wrapped2 Sample.fnA); VStr "/path";
            VFun (Wrapped3 Sample.fnB)]].
Proof. reflexivity. Qed.

Example wrapUseArgs_one_level :
  wrapUseArgs [VArr [VArr [VFun Sample.fnA]]] =
  Ok [VArr [VArr [VFun Sample.fnA]]].
Proof. reflexivity. Qed.

(** C7, as the code has it: a patched registration method calls the
    original method with an argument list of the same length and order,
    in which only functions, and the functions in list arguments, are
    replaced by their wrapped versions, and with its own [this] as the
    receiver: the receiver it was called with when that is an object, the
    global object when it is [undefined] or [null], a wrapper object when
    it is a primitive. *)
Theorem patched_method_forwards code n (o : func) (this : value)
    (args : list value) (w : world) :
  (∀ a, a ∈ args → wrappable a) →
  (∀ l a, VArr l ∈ args → a ∈ l → wrappable a) →
  ∃ out, length out = length args ∧ Forall2 substituted_arg args out ∧
    call code (S n) (Patched (VFun o)) this args w
      = call code n o (this_binding this) out w ∧
    (primitive this = false → this_binding this = this).
Proof.
  intros Hargs Hlists.
  destruct (wrapUseArgs_total args Hargs Hlists) as (out & Hout & Hsub).
  exists out. split; [symmetry; by eapply Forall2_length|]. split; [done|].
  split; [by rewrite call_Patched, Hout|]. by destruct this.
Qed.

Lemma patched_method_forwards_witness :
  ∃ out, length out = 2 ∧
    Forall2 substituted_arg [VStr "/path"; VFun Sample.fnB] out ∧
    call Sample.code 3 (Patched (VFun Sample.use)) (VFun Sample.fnA)
      [VStr "/path"; VFun Sample.fnB] Sample.w =
    call Sample.code 2 Sample.use (this_binding (VFun Sample.fnA)) out
      Sample.w ∧
    (primitive (VFun Sample.fnA) = false →
     this_binding (VFun Sample.fnA) = VFun Sample.fnA).
Proof.
  apply (patched_method_forwards Sample.code 2 Sample.use (VFun Sample.fnA)
           [VStr "/path"; VFun Sample.fnB] Sample.w).
  - intros a Ha f ->. elem_cases Ha; try discriminate.
    injection Ha as ->. simpl. lia.
  - intros l a Hl Ha f ->. elem_cases Hl; discriminate.
Defined.

(** C7, counterexample: called with no receiver, a patched registration
    method calls the original method with the global object as its
    receiver; called on a string, with a wrapper object. *)
Lemma patched_method_replaces_receiver :
  trace (call Sample.code 2 (Patched (VFun Sample.use)) VUndefined
           [VStr "/path"] Sample.w).2
    = [Enter Sample.use VGlobal [VStr "/path"]] ∧
  VGlobal ≠ VUndefined ∧
  trace (call Sample.code 2 (Patched (VFun Sample.use)) (VStr "app")
           [VStr "/path"] Sample.w).2
    = [Enter Sample.use (VBoxed (VStr "app")) [VStr "/path"]] ∧
  VBoxed (VStr "app") ≠ VStr "app".
Proof.
  split; [vm_compute; reflexivity|]. split; [discriminate|].
  split; [vm_compute; reflexivity|discriminate].
Qed.

(** ** Recording the request on the transaction *)

Lemma transaction_of_update t f w :
  transaction_of (update_transaction t f w) t = f (transaction_of w t).
Proof. unfold transaction_of, update_transaction. simpl. by rewrite lookup_insert_eq. Qed.

Lemma transaction_of_emit e w t :
  transaction_of (emit e w) t = transaction_of w t.
Proof. reflexivity. Qed.

Lemma addExpressReqToTransaction_request t m rt ou bu q w :
  ∃ w1,
    addExpressReqToTransaction (Some t) (VReq m rt ou bu q) w
      = (Returns (), w1) ∧
    responses w1 = responses w ∧ apps w1 = apps w ∧
    next_span w1 = next_span w ∧
    name (transaction_of w1 t)
      = default (name (transaction_of w t)) (route_name m rt) ∧
    data (transaction_of w1 t)
      = <["query" := q]> (<["baseUrl" := bu]> (<["url" := ou]>
          (data (transaction_of w t)))) ∧
    trace w1
      = trace w ++ match route_name m rt with
                   | Some n => [SetName t n]
                   | None => []
                   end
                ++ [SetData t "url" ou; SetData t "baseUrl" bu;
                    SetData t "query" q].
Proof.
  unfold addExpressReqToTransaction, route_name.
  unfold mbind, mret, M_bind, M_ret, set_name, setData, modify.
  destruct rt as [[p]|]; simpl; [destruct (truthy_string p)|];
    (eexists; split; [reflexivity|]);
    repeat (rewrite ?transaction_of_emit, ?transaction_of_update; simpl);
    rewrite <- ?(assoc_L (++)); done.
Qed.

Lemma M_bind_returns {A B} (m : M A) (f : A → M B) w a w1 :
  m w = (Returns a, w1) → (m ≫= f) w = f a w1.
Proof. unfold mbind, M_bind. by intros ->. Qed.

Lemma get_sentry_transaction_res r w :
  get_sentry_transaction (VRes r) w = (Returns (attached w r), w).
Proof. reflexivity. Qed.

Lemma before34_untraced fn req r w :
  attached w r = None → before34 fn req (VRes r) w = (Returns None, w).
Proof.
  intros Ht. unfold before34.
  erewrite M_bind_returns by apply get_sentry_transaction_res.
  by rewrite Ht.
Qed.

Lemma before2_untraced fn args r w :
  arg 1 args = VRes r → attached w r = None →
  before2 fn args w = (Returns (), w).
Proof.
  intros Hres Ht. unfold before2. rewrite Hres.
  erewrite M_bind_returns by apply get_sentry_transaction_res.
  by rewrite Ht.
Qed.

Lemma before34_traced fn m rt ou bu q r t w :
  attached w r = Some t →
  ∃ w1,
    before34 fn (VReq m rt ou bu q) (VRes r) w
      = (Returns (Some (next_span w)), w1) ∧
    name (transaction_of w1 t)
      = default (name (transaction_of w t)) (route_name m rt) ∧
    data (transaction_of w1 t)
      = <["query" := q]> (<["baseUrl" := bu]> (<["url" := ou]>
          (data (transaction_of w t)))) ∧
    trace w1
      = trace w ++ match route_name m rt with
                   | Some n => [SetName t n]
                   | None => []
                   end
                ++ [SetData t "url" ou; SetData t "baseUrl" bu;
                    SetData t "query" q;
                    StartChild t (func_name fn) "middleware" (next_span w)].
Proof.
  intros Ht.
  destruct (addExpressReqToTransaction_request t m rt ou bu q w)
    as (w1 & Hadd & _ & _ & Hspan & Hname & Hdata & Htrace).
  unfold before34.
  erewrite M_bind_returns by apply get_sentry_transaction_res.
  rewrite Ht. erewrite M_bind_returns by apply Hadd.
  eexists. split; [unfold startChild, mbind, M_bind, mret, M_ret;
                   by rewrite Hspan|].
  simpl. split; [done|]. split; [done|].
  rewrite Htrace, <- !(assoc_L (++)). reflexivity.
Qed.

Lemma before2_traced fn args m rt ou bu q r t w :
  arg 0 args = VReq m rt ou bu q → arg 1 args = VRes r →
  attached w r = Some t →
  ∃ w1,
    before2 fn args w = (Returns (), w1) ∧
    name (transaction_of w1 t)
      = default (name (transaction_of w t)) (route_name m rt) ∧
    data (transaction_of w1 t)
      = <["query" := q]> (<["baseUrl" := bu]> (<["url" := ou]>
          (data (transaction_of w t)))) ∧
    trace w1
      = trace w ++ match route_name m rt with
                   | Some n => [SetName t n]
                   | None => []
                   end
                ++ [SetData t "url" ou; SetData t "baseUrl" bu;
                    SetData t "query" q;
                    StartChild t (func_name fn) "middleware" (next_span w);
                    Once r "finish" (FinishListener (next_span w))].
Proof.
  intros Hreq Hres Ht.
  destruct (addExpressReqToTransaction_request t m rt ou bu q w)
    as (w1 & Hadd & _ & _ & Hspan & Hname & Hdata & Htrace).
  unfold before2. rewrite Hreq, Hres.
  erewrite M_bind_returns by apply get_sentry_transaction_res.
  rewrite Ht. erewrite M_bind_returns by apply Hadd.
  eexists. split; [unfold startChild, once, modify, mbind, M_bind;
                   by rewrite Hspan|].
  simpl. split; [done|]. split; [done|].
  rewrite Htrace, <- !(assoc_L (++)). reflexivity.
Qed.

Lemma M_bind_ret {A} (m : M A) w : (v ← m; mret v) w = m w.
Proof. unfold mbind, M_bind. by destruct (m w) as [[]]. Qed.

Lemma route_name_exposed m rt p :
  rt = Some p → path p ≠ "" → route_name m rt = Some (m +:+ " " +:+ path p).
Proof. intros -> Hp. simpl. by destruct (path p). Qed.

(** C3: when a wrapped handler is invoked and a transaction is attached to
    the response, the original handler is entered in a store in which the
    transaction is named "METHOD route-path" if the request exposes a
    matched-route path (and keeps its name otherwise), and in which the
    transaction's [url], [baseUrl] and [query] data are the request's
    [originalUrl], [baseUrl] and [query], renamed or not. *)
Theorem request_recorded_on_transaction code n (fn g : func) (this : value)
    (args : list value) m rt ou bu q (r t : nat) (w : world) :
  wrap fn = Ok g →
  arg (req_position g) args = VReq m rt ou bu q →
  arg (S (req_position g)) args = VRes r →
  attached w r = Some t →
  ∃ w1 args',
    call code (S n) g this args w
      = (v ← call code n fn (this_binding this) args';
         mret match g with Wrapped2 _ => v | _ => VUndefined end) w1 ∧
    (∀ p, rt = Some p → path p ≠ "" →
       name (transaction_of w1 t) = m +:+ " " +:+ path p) ∧
    (route_name m rt = None →
       name (transaction_of w1 t) = name (transaction_of w t)) ∧
    data (transaction_of w1 t) !! "url" = Some ou ∧
    data (transaction_of w1 t) !! "baseUrl" = Some bu ∧
    data (transaction_of w1 t) !! "query" = Some q.
Proof.
  intros Hg Hreq Hres Ht.
  assert (∀ w1,
    name (transaction_of w1 t)
      = default (name (transaction_of w t)) (route_name m rt) →
    data (transaction_of w1 t)
      = <["query" := q]> (<["baseUrl" := bu]> (<["url" := ou]>
          (data (transaction_of w t)))) →
    (∀ p, rt = Some p → path p ≠ "" →
       name (transaction_of w1 t) = m +:+ " " +:+ path p) ∧
    (route_name m rt = None →
       name (transaction_of w1 t) = name (transaction_of w t)) ∧
    data (transaction_of w1 t) !! "url" = Some ou ∧
    data (transaction_of w1 t) !! "baseUrl" = Some bu ∧
    data (transaction_of w1 t) !! "query" = Some q) as Hrecorded.
  { intros w1 Hname Hdata. rewrite Hname, Hdata. repeat split.
    - intros p Hrt Hp. by rewrite (route_name_exposed m rt p Hrt Hp).
    - by intros ->.
    - rewrite !lookup_insert_ne by done. apply lookup_insert_eq.
    - rewrite lookup_insert_ne by done. apply lookup_insert_eq.
    - apply lookup_insert_eq. }
  destruct (wrap_Ok_inv fn g Hg) as [[_ ->]|[[_ ->]|[_ ->]]];
    simpl in Hreq, Hres.
  - destruct (before2_traced fn args m rt ou bu q r t w Hreq Hres Ht)
      as (w1 & Hbefore & Hname & Hdata & _).
    exists w1, args. split; [|by apply Hrecorded].
    rewrite call_Wrapped2, M_bind_ret.
    unfold mbind, M_bind. by rewrite Hbefore.
  - destruct (before34_traced fn m rt ou bu q r t w Ht)
      as (w1 & Hbefore & Hname & Hdata & _).
    eexists w1, _. split; [|by apply Hrecorded].
    rewrite call_Wrapped3, Hreq, Hres.
    unfold mbind at 1, M_bind at 1. rewrite Hbefore. reflexivity.
  - destruct (before34_traced fn m rt ou bu q r t w Ht)
      as (w1 & Hbefore & Hname & Hdata & _).
    eexists w1, _. split; [|by apply Hrecorded].
    rewrite call_Wrapped4, Hreq, Hres.
    unfold mbind at 1, M_bind at 1. rewrite Hbefore. reflexivity.
Qed.

Lemma request_recorded_on_transaction_witness :
  ∃ w1 args',
    call Sample.code 3 (Wrapped2 Sample.fnA) VNull [Sample.req; VRes 0]
      Sample.w
      = (v ← call Sample.code 2 Sample.fnA VGlobal args'; mret v) w1 ∧
    (∀ p, Some {| path := "/users/:id" |} = Some p → path p ≠ "" →
       name (transaction_of w1 5) = "GET" +:+ " " +:+ path p) ∧
    (route_name "GET" (Some {| path := "/users/:id" |}) = None →
       name (transaction_of w1 5) = name (transaction_of Sample.w 5)) ∧
    data (transaction_of w1 5) !! "url" = Some (VStr "/api/users/7?full=1") ∧
    data (transaction_of w1 5) !! "baseUrl" = Some (VStr "/api") ∧
    data (transaction_of w1 5) !! "query" = Some (VStr "full=1").
Proof.
  apply (request_recorded_on_transaction Sample.code 2 Sample.fnA
           (Wrapped2 Sample.fnA) VNull [Sample.req; VRes 0]
           "GET" (Some {| path := "/users/:id" |})
           (VStr "/api/users/7?full=1") (VStr "/api") (VStr "full=1")
           0 5 Sample.w); reflexivity.
Defined.

Example arity2_names_transaction :
  let w' := (call Sample.code 3 (Wrapped2 Sample.fnA) VNull
               [Sample.req; VRes 0] Sample.w).2 in
  name (transaction_of w' 5) = "GET /users/:id" ∧
  data (transaction_of w' 5) !! "url" = Some (VStr "/api/users/7?full=1") ∧
  data (transaction_of w' 5) !! "baseUrl" = Some (VStr "/api") ∧
  data (transaction_of w' 5) !! "query" = Some (VStr "full=1").
Proof. vm_compute. done. Qed.

(** ** Without a transaction *)

(** C4, as the code has it: when no transaction is attached to the
    response, a wrapped handler calls the original handler once, in the
    store it was itself called in: nothing is recorded and no span is
    opened.  The receiver it passes on is its own [this]: the receiver it
    was called with when that is an object, the global object for
    [undefined] and [null], a wrapper object for a primitive.  The
    arity-2 wrapper passes its argument list on as it is.  The arity-3
    and arity-4 wrappers pass on their declared parameters in order, with,
    in place of the continuation, a function that calls the continuation
    with its own [this] and the arguments it is itself called with, and
    finishes no span. *)
Theorem untraced_wrapper_delegates code n (fn g : func) (this : value)
    (args : list value) (r : nat) (w : world) :
  wrap fn = Ok g →
  arg (S (req_position g)) args = VRes r →
  attached w r = None →
  match g with
  | Wrapped2 _ =>
      call code (S n) g this args w
        = call code n fn (this_binding this) args w
  | Wrapped3 _ =>
      call code (S n) g this args w =
      (call code n fn (this_binding this)
         [arg 0 args; arg 1 args; VFun (WrappedNext None (arg 2 args))];;
       mret VUndefined) w
  | Wrapped4 _ =>
      call code (S n) g this args w =
      (call code n fn (this_binding this)
         [arg 0 args; arg 1 args; arg 2 args;
          VFun (WrappedNext None (arg 3 args))];;
       mret VUndefined) w
  | _ => False
  end ∧
  (∀ k next this' args' w',
     call code (S k) (WrappedNext None next) this' args' w' =
     apply_with (call code k) next (this_binding this') args' w') ∧
  (∀ v, primitive v = false → this_binding v = v).
Proof.
  intros Hg Hres Ht.
  split; [|split; [intros; apply call_WrappedNext|apply this_binding_object]].
  destruct (wrap_Ok_inv fn g Hg) as [[_ ->]|[[_ ->]|[_ ->]]]; simpl in Hres.
  - rewrite call_Wrapped2.
    by erewrite M_bind_returns by by eapply before2_untraced.
  - rewrite call_Wrapped3, Hres.
    by erewrite M_bind_returns by by eapply before34_untraced.
  - rewrite call_Wrapped4, Hres.
    by erewrite M_bind_returns by by eapply before34_untraced.
Qed.

Lemma untraced_wrapper_delegates_witness :
  call Sample.code 3 (Wrapped3 Sample.fnB) VNull
    [Sample.req; VRes 1; VFun Sample.next] Sample.w =
  (call Sample.code 2 Sample.fnB VGlobal
     [Sample.req; VRes 1; VFun (WrappedNext None (VFun Sample.next))];;
   mret VUndefined) Sample.w ∧
  (∀ k next this' args' w',
     call Sample.code (S k) (WrappedNext None next) this' args' w' =
     apply_with (call Sample.code k) next (this_binding this') args' w') ∧
  (∀ v, primitive v = false → this_binding v = v).
Proof.
  apply (untraced_wrapper_delegates Sample.code 2 Sample.fnB
           (Wrapped3 Sample.fnB) VNull
           [Sample.req; VRes 1; VFun Sample.next] 1 Sample.w); reflexivity.
Defined.

(** C4, counterexample: the arity-3 wrapper does not hand the original
    handler the arguments it was called with: the handler is entered with
    a new function in the place of the continuation; called with [null]
    as its receiver, it enters the handler with the global object. *)
Lemma untraced_arity3_replaces_continuation :
  attached Sample.w 1 = None ∧
  wrap Sample.fnB = Ok (Wrapped3 Sample.fnB) ∧
  trace (call Sample.code 4 (Wrapped3 Sample.fnB) VNull
           [Sample.req; VRes 1; VFun Sample.next] Sample.w).2 =
    [Enter Sample.fnB VGlobal
       [Sample.req; VRes 1; VFun (WrappedNext None (VFun Sample.next))];
     Enter Sample.next VGlobal []] ∧
  [Sample.req; VRes 1; VFun (WrappedNext None (VFun Sample.next))] ≠
  [Sample.req; VRes 1; VFun Sample.next] ∧
  VGlobal ≠ VNull.
Proof.
  split; [reflexivity|]. split; [reflexivity|].
  split; [vm_compute; reflexivity|]. split; discriminate.
Qed.

(** ** Finishing the span *)

Lemma finishes_app span tr1 tr2 :
  finishes span (tr1 ++ tr2) = finishes span tr1 + finishes span tr2.
Proof. induction tr1 as [|e tr1 IH]; simpl; [done|]. rewrite IH. lia. Qed.

(** C5, as the code has it: when an arity-3 wrapped handler is invoked and
    a transaction is attached to the response, a span is opened, not yet
    finished, and the original handler is called with a continuation
    that, each time it is called, finishes that span once and then
    forwards its own [this] and its arguments to the original
    continuation.  The span is thus finished once per call of the
    continuation. *)
Theorem continuation_finishes_then_forwards code n (fn : func) (this : value)
    (args : list value) m rt ou bu q (r t : nat) (w : world) :
  func_length fn = 3 →
  arg 0 args = VReq m rt ou bu q →
  arg 1 args = VRes r →
  attached w r = Some t →
  ∃ w1,
    wrap fn = Ok (Wrapped3 fn) ∧
    call code (S n) (Wrapped3 fn) this args w =
    (call code n fn (this_binding this)
       [arg 0 args; arg 1 args;
        VFun (WrappedNext (Some (next_span w)) (arg 2 args))];;
     mret VUndefined) w1 ∧
    last (trace w1)
      = Some (StartChild t (func_name fn) "middleware" (next_span w)) ∧
    finishes (next_span w) (trace w1) = finishes (next_span w) (trace w) ∧
    ∀ k this' args' w',
      call code (S k) (WrappedNext (Some (next_span w)) (arg 2 args))
        this' args' w' =
      apply_with (call code k) (arg 2 args) (this_binding this') args'
        (emit (Finish (next_span w)) w') ∧
      finishes (next_span w) (trace (emit (Finish (next_span w)) w'))
        = S (finishes (next_span w) (trace w')).
Proof.
  intros Hlen Hreq Hres Ht.
  destruct (before34_traced fn m rt ou bu q r t w Ht)
    as (w1 & Hbefore & _ & _ & Htrace).
  exists w1. split; [unfold wrap; by rewrite Hlen|].
  split.
  { rewrite call_Wrapped3, Hreq, Hres.
    by erewrite M_bind_returns by apply Hbefore. }
  split.
  { rewrite Htrace, !(assoc_L (++)).
    change [SetData t "url" ou; SetData t "baseUrl" bu; SetData t "query" q;
            StartChild t (func_name fn) "middleware" (next_span w)]
      with ([SetData t "url" ou; SetData t "baseUrl" bu; SetData t "query" q]
            ++ [StartChild t (func_name fn) "middleware" (next_span w)]).
    rewrite (assoc_L (++)). apply last_snoc. }
  split.
  { rewrite Htrace, !finishes_app. destruct (route_name m rt); simpl; lia. }
  intros k this' args' w'. split; [apply call_WrappedNext|].
  simpl. rewrite finishes_app. simpl. rewrite bool_decide_eq_true_2 by done.
  lia.
Qed.

Lemma continuation_finishes_then_forwards_witness :
  ∃ w1,
    wrap Sample.twice = Ok (Wrapped3 Sample.twice) ∧
    call Sample.code 4 (Wrapped3 Sample.twice) VNull
      [Sample.req; VRes 0; VFun Sample.next] Sample.w =
    (call Sample.code 3 Sample.twice VGlobal
       [Sample.req; VRes 0; VFun (WrappedNext (Some 0) (VFun Sample.next))];;
     mret VUndefined) w1 ∧
    last (trace w1) = Some (StartChild 5 "twice" "middleware" 0) ∧
    finishes 0 (trace w1) = 0 ∧
    ∀ k this' args' w',
      call Sample.code (S k) (WrappedNext (Some 0) (VFun Sample.next))
        this' args' w' =
      apply_with (call Sample.code k) (VFun Sample.next)
        (this_binding this') args'
        (emit (Finish 0) w') ∧
      finishes 0 (trace (emit (Finish 0) w')) = S (finishes 0 (trace w')).
Proof.
  apply (continuation_finishes_then_forwards Sample.code 3 Sample.twice VNull
           [Sample.req; VRes 0; VFun Sample.next]
           "GET" (Some {| path := "/users/:id" |})
           (VStr "/api/users/7?full=1") (VStr "/api") (VStr "full=1")
           0 5 Sample.w); reflexivity.
Defined.

(** C5, counterexample: a handler that calls its continuation twice has
    the span finished twice within one invocation of the arity-3
    wrapper. *)
Lemma continuation_called_twice_finishes_twice :
  attached Sample.w 0 = Some 5 ∧
  wrap Sample.twice = Ok (Wrapped3 Sample.twice) ∧
  trace (call Sample.code 4 (Wrapped3 Sample.twice) VNull
           [Sample.req; VRes 0; VFun Sample.next] Sample.w).2 =
    [SetName 5 "GET /users/:id";
     SetData 5 "url" (VStr "/api/users/7?full=1");
     SetData 5 "baseUrl" (VStr "/api");
     SetData 5 "query" (VStr "full=1");
     StartChild 5 "twice" "middleware" 0;
     Enter Sample.twice VGlobal
       [Sample.req; VRes 0; VFun (WrappedNext (Some 0) (VFun Sample.next))];
     Finish 0;
     Enter Sample.next VGlobal [];
     Finish 0;
     Enter Sample.next VGlobal []] ∧
  finishes 0 (trace (call Sample.code 4 (Wrapped3 Sample.twice) VNull
                       [Sample.req; VRes 0; VFun Sample.next] Sample.w).2)
    = 2.
Proof.
  split; [reflexivity|]. split; [reflexivity|].
  split; vm_compute; reflexivity.
Qed.

(** ** Return values *)

Lemma M_then_undefined_returns (m : M value) w v w' :
  (m;; mret VUndefined) w = (Returns v, w') → v = VUndefined.
Proof.
  unfold mbind, M_bind. destruct (m w) as [[u|e|] w1]; [|done..].
  by intros [= <- _].
Qed.

(** C10: the arity-2 wrapper returns to its caller what the original
    handler returns; the arity-3 and arity-4 wrappers return [undefined]
    whatever the original handler returns; the wrapped continuation
    returns what the original continuation returns. *)
Theorem wrapper_return_values code n (fn : func) (this : value)
    (args : list value) (w : world) :
  (∀ w1 v w2,
     before2 fn args w = (Returns (), w1) →
     call code n fn (this_binding this) args w1 = (Returns v, w2) →
     call code (S n) (Wrapped2 fn) this args w = (Returns v, w2)) ∧
  (∀ span w1 v w2,
     before34 fn (arg 0 args) (arg 1 args) w = (Returns span, w1) →
     call code n fn (this_binding this)
       [arg 0 args; arg 1 args; VFun (WrappedNext span (arg 2 args))] w1
       = (Returns v, w2) →
     call code (S n) (Wrapped3 fn) this args w = (Returns VUndefined, w2)) ∧
  (∀ span w1 v w2,
     before34 fn (arg 1 args) (arg 2 args) w = (Returns span, w1) →
     call code n fn (this_binding this)
       [arg 0 args; arg 1 args; arg 2 args;
        VFun (WrappedNext span (arg 3 args))] w1
       = (Returns v, w2) →
     call code (S n) (Wrapped4 fn) this args w = (Returns VUndefined, w2)) ∧
  (∀ v w', call code (S n) (Wrapped3 fn) this args w = (Returns v, w') →
           v = VUndefined) ∧
  (∀ v w', call code (S n) (Wrapped4 fn) this args w = (Returns v, w') →
           v = VUndefined) ∧
  (∀ span next,
     call code (S n) (WrappedNext span next) this args w =
     apply_with (call code n) next (this_binding this) args
       match span with Some s => emit (Finish s) w | None => w end).
Proof.
  repeat split.
  - intros w1 v w2 Hbefore Hfn. rewrite call_Wrapped2.
    by erewrite M_bind_returns by apply Hbefore.
  - intros span w1 v w2 Hbefore Hfn. rewrite call_Wrapped3.
    erewrite M_bind_returns by apply Hbefore.
    by erewrite M_bind_returns by apply Hfn.
  - intros span w1 v w2 Hbefore Hfn. rewrite call_Wrapped4.
    erewrite M_bind_returns by apply Hbefore.
    by erewrite M_bind_returns by apply Hfn.
  - intros v w'. rewrite call_Wrapped3. unfold mbind at 1, M_bind at 1.
    destruct (before34 _ _ _ w) as [[span| |] w1]; [|done..].
    apply M_then_undefined_returns.
  - intros v w'. rewrite call_Wrapped4. unfold mbind at 1, M_bind at 1.
    destruct (before34 _ _ _ w) as [[span| |] w1]; [|done..].
    apply M_then_undefined_returns.
  - intros span next. apply call_WrappedNext.
Qed.

Lemma wrapper_return_values_witness :
  (∃ w2, call Sample.code 2 (Wrapped2 Sample.fnA) VNull
           [Sample.req; VRes 1] Sample.w = (Returns (VNum 42), w2)) ∧
  (∃ w2, call Sample.code 2 (Wrapped3 Sample.fnC) VNull
           [Sample.req; VRes 1; VFun Sample.next] Sample.w
         = (Returns VUndefined, w2)) ∧
  (∃ w2, call Sample.code 2 (Wrapped4 Sample.errorHandler) VNull
           [VNull; Sample.req; VRes 1; VFun Sample.next] Sample.w
         = (Returns VUndefined, w2)).
Proof.
  split; [|split].
  - destruct (wrapper_return_values Sample.code 1 Sample.fnA VNull
                [Sample.req; VRes 1] Sample.w) as (H2 & _).
    eexists. eapply H2; vm_compute; reflexivity.
  - destruct (wrapper_return_values Sample.code 1 Sample.fnC VNull
                [Sample.req; VRes 1; VFun Sample.next] Sample.w)
      as (_ & H3 & _).
    eexists. eapply H3; vm_compute; reflexivity.
  - destruct (wrapper_return_values Sample.code 1 Sample.errorHandler VNull
                [VNull; Sample.req; VRes 1; VFun Sample.next] Sample.w)
      as (_ & _ & H4 & _).
    eexists. eapply H4; vm_compute; reflexivity.
Defined.

Example arity3_discards_return_value :
  (call Sample.code 2 Sample.fnC VNull
     [Sample.req; VRes 1; VFun (WrappedNext None (VFun Sample.next))]
     Sample.w).1 = Returns (VNum 42) ∧
  (call Sample.code 3 (Wrapped3 Sample.fnC) VNull
     [Sample.req; VRes 1; VFun Sample.next] Sample.w).1 = Returns VUndefined.
Proof. split; vm_compute; reflexivity. Qed.

(** ** Setup *)

Lemma key_not_use m : Verb.key m ≠ "use".
Proof. by destruct m. Qed.

Lemma member_update_app_eq w app method v :
  member (update_app app (fun o => <[method := v]> o) w) app method = v.
Proof.
  unfold member, update_app. simpl.
  rewrite lookup_insert_eq. simpl. by rewrite lookup_insert_eq.
Qed.

Lemma member_update_app_ne w app method v k :
  k ≠ method →
  member (update_app app (fun o => <[method := v]> o) w) app k
    = member w app k.
Proof.
  intros Hk. unfold member, update_app. simpl.
  rewrite lookup_insert_eq. simpl. rewrite lookup_insert_ne by done.
  by destruct (apps w !! app).
Qed.

Lemma patchMiddleware_eq app method w :
  patchMiddleware app method w =
  (Returns app,
   update_app app
     (fun o => <[method := VFun (Patched (member w app method))]> o) w).
Proof. reflexivity. Qed.

Lemma routeMiddlewares_frame app methods w :
  ∃ w',
    routeMiddlewares app methods w = (Returns (), w') ∧
    (∀ k, (∀ m, m ∈ default [] methods → k ≠ Verb.key m) →
          member w' app k = member w app k) ∧
    (∀ a, a ≠ app → apps w' !! a = apps w !! a) ∧
    transactions w' = transactions w ∧ responses w' = responses w ∧
    trace w' = trace w.
Proof.
  unfold routeMiddlewares. generalize (default [] methods). clear methods.
  intros methods. revert w.
  induction methods as [|m methods IH]; intros w.
  - exists w. by repeat split.
  - simpl. unfold mbind at 1, M_bind at 1.
    unfold mbind at 1, M_bind at 1. rewrite patchMiddleware_eq.
    unfold mret at 1, M_ret at 1.
    destruct (IH (update_app app
      (fun o => <[Verb.key m := VFun (Patched (member w app (Verb.key m)))]> o)
      w)) as (w' & -> & Hmem & Hother & Htx & Hres & Htr).
    exists w'. split; [done|]. repeat split; try done.
    + intros k Hk. rewrite Hmem.
      * apply member_update_app_ne, Hk. left.
      * intros m' Hm'. apply Hk. by right.
    + intros a Ha. rewrite Hother by done.
      unfold update_app. simpl. by rewrite lookup_insert_ne.
Qed.

(** C8: after setup with an application and a configured subset of the
    verb-specific methods, every verb-specific method outside the subset
    is the function it was before; the generic [use] method is patched;
    and when no methods are configured, [use] is the only property of the
    application that changes. *)
Theorem unconfigured_methods_stay_unpatched (app : nat)
    (methods : option (list Verb.Method)) (w : world) :
  ∃ w',
    setupOnce {| _app := Some app; _methods := methods |} w
      = (Returns (), w') ∧
    (∀ m, m ∉ default [] methods →
          member w' app (Verb.key m) = member w app (Verb.key m)) ∧
    member w' app "use" = VFun (Patched (member w app "use")) ∧
    (methods = None →
     ∀ k, k ≠ "use" → member w' app k = member w app k).
Proof.
  unfold setupOnce, instrumentMiddlewares. simpl.
  unfold mbind at 1, M_bind at 1. unfold mbind at 1, M_bind at 1.
  rewrite patchMiddleware_eq. unfold mret at 1, M_ret at 1.
  destruct (routeMiddlewares_frame app methods (update_app app
    (fun o => <["use" := VFun (Patched (member w app "use"))]> o) w))
    as (w' & -> & Hmem & _).
  exists w'. split; [done|]. repeat split.
  - intros m Hm. rewrite Hmem.
    + apply member_update_app_ne, key_not_use.
    + intros m' Hm' Heq. apply Hm.
      assert (m = m') as -> by (by destruct m, m'). done.
  - rewrite Hmem; [apply member_update_app_eq|].
    intros m _ Heq. by apply (key_not_use m).
  - intros -> k Hk. rewrite Hmem.
    + by apply member_update_app_ne.
    + intros m Hm. by apply elem_of_nil in Hm.
Qed.

Example setup_patches_configured_only :
  let w' := (setupOnce {| _app := Some 0; _methods := Some [Verb.post] |}
               Sample.w).2 in
  member w' 0 "get" = VFun Sample.use ∧
  member w' 0 "use" = VFun (Patched (VFun Sample.use)) ∧
  member w' 0 "post" = VFun (Patched VUndefined).
Proof. vm_compute. done. Qed.

(** C9: when no application object is supplied, [setupOnce] logs one error
    and returns normally: no application, and nothing else in the store,
    is modified. *)
Theorem setupOnce_without_app (this : Express) (w : world) :
  _app this = None →
  ∃ w',
    setupOnce this w = (Returns (), w') ∧
    apps w' = apps w ∧
    transactions w' = transactions w ∧ responses w' = responses w ∧
    next_span w' = next_span w ∧
    trace w' = trace w ++
      [LoggerError "ExpressIntegration is missing an Express instance"].
Proof.
  intros Happ. unfold setupOnce. rewrite Happ.
  eexists. split; [reflexivity|]. by repeat split.
Qed.

Lemma setupOnce_without_app_witness :
  ∃ w',
    setupOnce {| _app := None; _methods := Some [Verb.get] |} Sample.w
      = (Returns (), w') ∧
    apps w' = apps Sample.w ∧
    transactions w' = transactions Sample.w ∧
    responses w' = responses Sample.w ∧
    next_span w' = next_span Sample.w ∧
    trace w' = trace Sample.w ++
      [LoggerError "ExpressIntegration is missing an Express instance"].
Proof.
  apply (setupOnce_without_app
           {| _app := None; _methods := Some [Verb.get] |} Sample.w).
  reflexivity.
Defined.

(** * Further properties *)

(** ** A wrapper around the call of the original handler *)

Lemma call_wrapped code n fn g this args w :
  wrap fn = Ok g →
  call code (S n) g this args w =
  (args' ← handler_entry g args;
   v ← call code n fn (this_binding this) args';
   mret match g with Wrapped2 _ => v | _ => VUndefined end) w.
Proof.
  intros Hg.
  destruct (wrap_Ok_inv fn g Hg) as [[_ ->]|[[_ ->]|[_ ->]]];
    cbn [handler_entry].
  - rewrite call_Wrapped2. unfold mbind, M_bind.
    destruct (before2 fn args w) as [[[]| |] w1]; try done.
    unfold mret, M_ret. by destruct (call code n fn (this_binding this) args w1) as [[]].
  - rewrite call_Wrapped3. unfold mbind, M_bind.
    by destruct (before34 fn (arg 0 args) (arg 1 args) w) as [[]].
  - rewrite call_Wrapped4. unfold mbind, M_bind.
    by destruct (before34 fn (arg 1 args) (arg 2 args) w) as [[]].
Qed.

Lemma M_bind_throws {A B} (m : M A) (f : A → M B) w e w1 :
  m w = (Throws e, w1) → (m ≫= f) w = (Throws e, w1).
Proof. unfold mbind, M_bind. by intros ->. Qed.

(** X1: a wrapper does not catch what the original handler throws: when
    the handler throws, the wrapper throws the same value and does nothing
    after it, so that the span it opened is left as the handler left it. *)
Theorem wrapper_rethrows code n (fn g : func) (this : value)
    (args args' : list value) (e : value) (w w1 w2 : world) :
  wrap fn = Ok g →
  handler_entry g args w = (Returns args', w1) →
  call code n fn (this_binding this) args' w1 = (Throws e, w2) →
  call code (S n) g this args w = (Throws e, w2).
Proof.
  intros Hg Hentry Hfn. rewrite (call_wrapped code n fn g) by done.
  erewrite M_bind_returns by apply Hentry.
  by erewrite M_bind_throws by apply Hfn.
Qed.

Lemma wrapper_rethrows_witness :
  ∃ w2,
    call Host.code 2 (Wrapped3 Host.failing3) VNull
      [Host.req; VRes 0; VFun Host.next] Host.w
      = (Throws (VError "boom"), w2) ∧
    finishes 7 (trace w2) = 0.
Proof.
  eexists. split.
  - eapply (wrapper_rethrows Host.code 1 Host.failing3
              (Wrapped3 Host.failing3) VNull
              [Host.req; VRes 0; VFun Host.next]); vm_compute; reflexivity.
  - vm_compute. reflexivity.
Defined.

(** X2: a wrapper called without a response, the response parameter being
    [undefined] or [null], throws a TypeError: the original handler is not
    called and nothing is recorded. *)
Theorem wrapper_without_response_throws code n (fn g : func) (this : value)
    (args : list value) (w : world) :
  wrap fn = Ok g →
  arg (S (req_position g)) args = VUndefined ∨
  arg (S (req_position g)) args = VNull →
  call code (S n) g this args w = (Throws VTypeError, w).
Proof.
  intros Hg Hres.
  destruct (wrap_Ok_inv fn g Hg) as [[_ ->]|[[_ ->]|[_ ->]]];
    simpl in Hres; simpl; unfold mbind, M_bind;
    by destruct Hres as [-> | ->].
Qed.

Lemma wrapper_without_response_throws_witness :
  call Host.code 5 (Wrapped4 Host.handler4) VNull [] Host.w
    = (Throws VTypeError, Host.w).
Proof.
  apply (wrapper_without_response_throws Host.code 4 Host.handler4
           (Wrapped4 Host.handler4) VNull [] Host.w);
    [reflexivity | left; reflexivity].
Defined.

(** X3: when a transaction is attached to the response and the request
    parameter is [undefined] or [null], a wrapper throws a TypeError
    before it records anything, opens a span or calls the original
    handler. *)
Theorem traced_wrapper_without_request_throws code n (fn g : func)
    (this : value) (args : list value) (r t : nat) (w : world) :
  wrap fn = Ok g →
  arg (S (req_position g)) args = VRes r →
  attached w r = Some t →
  arg (req_position g) args = VUndefined ∨
  arg (req_position g) args = VNull →
  call code (S n) g this args w = (Throws VTypeError, w).
Proof.
  intros Hg Hres Ht Hreq. unfold attached in Ht.
  destruct (wrap_Ok_inv fn g Hg) as [[_ ->]|[[_ ->]|[_ ->]]];
    simpl in Hres, Hreq; simpl; unfold mbind at 1, M_bind at 1;
    rewrite Hres; simpl; rewrite Ht;
    unfold mbind at 1, M_bind at 1;
    by destruct Hreq as [-> | ->].
Qed.

Lemma traced_wrapper_without_request_throws_witness :
  call Host.code 5 (Wrapped2 Host.failing2) VNull [VNull; VRes 0] Host.w
    = (Throws VTypeError, Host.w).
Proof.
  apply (traced_wrapper_without_request_throws Host.code 4 Host.failing2
           (Wrapped2 Host.failing2) VNull [VNull; VRes 0] 0 3 Host.w);
    [reflexivity | reflexivity | reflexivity | right; reflexivity].
Defined.

(** ** The span of an arity-2 handler *)

Lemma listeners_of_update_response r f w :
  listeners_of (update_response r f w) r
    = listeners (f (default empty_response (responses w !! r))).
Proof.
  unfold listeners_of, update_response. simpl. by rewrite lookup_insert_eq.
Qed.

Lemma before2_traced_listener fn args m rt ou bu q r t w :
  arg 0 args = VReq m rt ou bu q → arg 1 args = VRes r →
  attached w r = Some t →
  ∃ w1,
    before2 fn args w = (Returns (), w1) ∧
    listeners_of w1 r
      = listeners_of w r ++ [("finish", FinishListener (next_span w))] ∧
    trace w1
      = trace w ++ match route_name m rt with
                   | Some n => [SetName t n]
                   | None => []
                   end
                ++ [SetData t "url" ou; SetData t "baseUrl" bu;
                    SetData t "query" q;
                    StartChild t (func_name fn) "middleware" (next_span w);
                    Once r "finish" (FinishListener (next_span w))].
Proof.
  intros Hreq Hres Ht.
  destruct (addExpressReqToTransaction_request t m rt ou bu q w)
    as (w1 & Hadd & Hresp & _ & Hspan & _ & _ & Htrace).
  unfold before2. rewrite Hreq, Hres.
  erewrite M_bind_returns by apply get_sentry_transaction_res.
  rewrite Ht. erewrite M_bind_returns by apply Hadd.
  eexists. split; [unfold startChild, once, modify, mbind, M_bind;
                   by rewrite Hspan|].
  split.
  - unfold listeners_of. simpl. rewrite lookup_insert_eq. simpl.
    by rewrite Hresp.
  - simpl. rewrite Htrace, <- !(assoc_L (++)). reflexivity.
Qed.

Lemma finishes_recording span t (rename : list event) ou bu q rest :
  (∀ e, e ∈ rename ++ rest → is_finish span e = false) →
  finishes span
    (rename ++ [SetData t "url" ou; SetData t "baseUrl" bu;
                SetData t "query" q] ++ rest) = 0.
Proof.
  intros Hno. rewrite !finishes_app. simpl.
  assert (∀ l, (∀ e, e ∈ l → is_finish span e = false) → finishes span l = 0)
    as Hzero.
  { induction l as [|e l IH]; intros Hl; simpl; [done|].
    rewrite (Hl e) by left. rewrite IH; [done|].
    intros e' He'. apply Hl. by right. }
  rewrite !Hzero; [done|..]; intros e He; apply Hno;
    apply elem_of_app; auto.
Qed.

(** X4: when an arity-2 wrapped handler is invoked and a transaction is
    attached to the response, the wrapper opens a span described by the
    handler's name, registers one more callback for the response's
    [finish] event, and calls the original handler with its own [this]
    (the global object when it was called with no receiver) and the whole
    argument list it was called with.  The wrapper does not finish the
    span itself; the callback, when called, finishes it once. *)
Theorem arity2_span_finishes_with_response code n (fn : func) (this : value)
    (args : list value) m rt ou bu q (r t : nat) (w : world) :
  func_length fn = 2 →
  arg 0 args = VReq m rt ou bu q →
  arg 1 args = VRes r →
  attached w r = Some t →
  ∃ w1 evs,
    wrap fn = Ok (Wrapped2 fn) ∧
    call code (S n) (Wrapped2 fn) this args w = call code n fn (this_binding this) args w1 ∧
    trace w1
      = trace w ++ evs ++
        [StartChild t (func_name fn) "middleware" (next_span w);
         Once r "finish" (FinishListener (next_span w))] ∧
    finishes (next_span w) (trace w1) = finishes (next_span w) (trace w) ∧
    listeners_of w1 r
      = listeners_of w r ++ [("finish", FinishListener (next_span w))] ∧
    ∀ k this' args' w',
      call code (S k) (FinishListener (next_span w)) this' args' w'
        = (Returns VUndefined, emit (Finish (next_span w)) w').
Proof.
  intros Hlen Hreq Hres Ht.
  destruct (before2_traced_listener fn args m rt ou bu q r t w Hreq Hres Ht)
    as (w1 & Hbefore & Hlisteners & Htrace).
  exists w1, (match route_name m rt with
              | Some n => [SetName t n]
              | None => []
              end ++ [SetData t "url" ou; SetData t "baseUrl" bu;
                      SetData t "query" q]).
  split; [unfold wrap; by rewrite Hlen|].
  split.
  { rewrite call_Wrapped2. by erewrite M_bind_returns by apply Hbefore. }
  split; [by rewrite Htrace, <- !(assoc_L (++))|].
  split.
  { rewrite Htrace, finishes_app.
    rewrite (finishes_recording (next_span w) t _ ou bu q
               [StartChild t (func_name fn) "middleware" (next_span w);
                Once r "finish" (FinishListener (next_span w))]); [lia|].
    intros e He. apply elem_of_app in He as [He|He].
    - destruct (route_name m rt); elem_cases He; by subst e.
    - elem_cases He; by subst e. }
  split; [done|]. by intros.
Qed.

Lemma arity2_span_finishes_with_response_witness :
  ∃ w1 evs,
    wrap Host.failing2 = Ok (Wrapped2 Host.failing2) ∧
    call Host.code 3 (Wrapped2 Host.failing2) VNull
      [Host.req; VRes 0; VNum 1] Host.w
      = call Host.code 2 Host.failing2 VGlobal [Host.req; VRes 0; VNum 1] w1 ∧
    trace w1
      = trace Host.w ++ evs ++
        [StartChild 3 "failing2" "middleware" 7;
         Once 0 "finish" (FinishListener 7)] ∧
    finishes 7 (trace w1) = finishes 7 (trace Host.w) ∧
    listeners_of w1 0
      = [("close", Host.next)] ++ [("finish", FinishListener 7)] ∧
    ∀ k this' args' w',
      call Host.code (S k) (FinishListener 7) this' args' w'
        = (Returns VUndefined, emit (Finish 7) w').
Proof.
  apply (arity2_span_finishes_with_response Host.code 2 Host.failing2 VNull
           [Host.req; VRes 0; VNum 1]
           "POST" (Some {| path := "/items" |})
           (VStr "/shop/items") (VStr "/shop") (VArr [])
           0 3 Host.w); reflexivity.
Defined.

(** ** The span of an error handler *)

(** X5: when an arity-4 wrapped handler is invoked and a transaction is
    attached to the response, the wrapper opens a span described by the
    handler's name and calls the original handler with the error, the
    request and the response it was given, in that order, and with a
    continuation that, each time it is called, finishes that span and
    then forwards its own [this] (the global object when it is called
    with no receiver) and its arguments to the original continuation. *)
Theorem error_handler_span code n (fn : func) (this : value)
    (args : list value) m rt ou bu q (r t : nat) (w : world) :
  func_length fn = 4 →
  arg 1 args = VReq m rt ou bu q →
  arg 2 args = VRes r →
  attached w r = Some t →
  ∃ w1,
    wrap fn = Ok (Wrapped4 fn) ∧
    call code (S n) (Wrapped4 fn) this args w =
    (call code n fn (this_binding this)
       [arg 0 args; arg 1 args; arg 2 args;
        VFun (WrappedNext (Some (next_span w)) (arg 3 args))];;
     mret VUndefined) w1 ∧
    last (trace w1)
      = Some (StartChild t (func_name fn) "middleware" (next_span w)) ∧
    finishes (next_span w) (trace w1) = finishes (next_span w) (trace w) ∧
    ∀ k this' args' w',
      call code (S k) (WrappedNext (Some (next_span w)) (arg 3 args))
        this' args' w' =
      apply_with (call code k) (arg 3 args) (this_binding this') args'
        (emit (Finish (next_span w)) w').
Proof.
  intros Hlen Hreq Hres Ht.
  destruct (before34_traced fn m rt ou bu q r t w Ht)
    as (w1 & Hbefore & _ & _ & Htrace).
  exists w1. split; [unfold wrap; by rewrite Hlen|].
  split.
  { rewrite call_Wrapped4, Hreq, Hres.
    by erewrite M_bind_returns by apply Hbefore. }
  split.
  { rewrite Htrace.
    change [SetData t "url" ou; SetData t "baseUrl" bu; SetData t "query" q;
            StartChild t (func_name fn) "middleware" (next_span w)]
      with ([SetData t "url" ou; SetData t "baseUrl" bu; SetData t "query" q]
            ++ [StartChild t (func_name fn) "middleware" (next_span w)]).
    rewrite !(assoc_L (++)). apply last_snoc. }
  split.
  { rewrite Htrace, finishes_app.
    rewrite (finishes_recording (next_span w) t _ ou bu q
               [StartChild t (func_name fn) "middleware" (next_span w)]);
      [lia|].
    intros e He. apply elem_of_app in He as [He|He].
    - destruct (route_name m rt); elem_cases He; by subst e.
    - elem_cases He; by subst e. }
  intros. apply call_WrappedNext.
Qed.

Lemma error_handler_span_witness :
  ∃ w1,
    wrap Host.handler4 = Ok (Wrapped4 Host.handler4) ∧
    call Host.code 3 (Wrapped4 Host.handler4) VNull
      [VError "bad"; Host.req; VRes 0; VFun Host.next] Host.w =
    (call Host.code 2 Host.handler4 VGlobal
       [VError "bad"; Host.req; VRes 0;
        VFun (WrappedNext (Some 7) (VFun Host.next))];;
     mret VUndefined) w1 ∧
    last (trace w1) = Some (StartChild 3 "handler4" "middleware" 7) ∧
    finishes 7 (trace w1) = finishes 7 (trace Host.w) ∧
    ∀ k this' args' w',
      call Host.code (S k) (WrappedNext (Some 7) (VFun Host.next))
        this' args' w' =
      apply_with (call Host.code k) (VFun Host.next)
        (this_binding this') args'
        (emit (Finish 7) w').
Proof.
  apply (error_handler_span Host.code 2 Host.handler4 VNull
           [VError "bad"; Host.req; VRes 0; VFun Host.next]
           "POST" (Some {| path := "/items" |})
           (VStr "/shop/items") (VStr "/shop") (VArr [])
           0 3 Host.w); reflexivity.
Defined.

(** ** A handler that never calls its continuation *)

(** X6: when an arity-3 handler of the host returns without calling
    anything, its continuation included, the wrapper returns [undefined]
    and the span it opened for the handler has not been finished. *)
Theorem silent_handler_leaves_span_open code n (fname : string) (body : nat)
    (this : value) (args : list value) m rt ou bu q (r t : nat) (v : value)
    (w : world) :
  arg 0 args = VReq m rt ou bu q →
  arg 1 args = VRes r →
  attached w r = Some t →
  code body (this_binding this)
    [arg 0 args; arg 1 args;
     VFun (WrappedNext (Some (next_span w)) (arg 2 args))] = Return v →
  ∃ w2,
    call code (S (S n)) (Wrapped3 (User fname 3 body)) this args w
      = (Returns VUndefined, w2) ∧
    StartChild t fname "middleware" (next_span w) ∈ trace w2 ∧
    finishes (next_span w) (trace w2) = finishes (next_span w) (trace w).
Proof.
  intros Hreq Hres Ht Hbody.
  destruct (before34_traced (User fname 3 body) m rt ou bu q r t w Ht)
    as (w1 & Hbefore & _ & _ & Htrace).
  eexists. split.
  { rewrite call_Wrapped3, Hreq, Hres.
    erewrite M_bind_returns by apply Hbefore.
    rewrite <- Hreq, <- Hres. simpl. unfold mbind, M_bind, modify. simpl.
    rewrite Hbody. reflexivity. }
  simpl. rewrite Htrace. split.
  - rewrite !elem_of_app. left. right. right.
    rewrite !elem_of_cons. auto 10.
  - rewrite <- !(assoc_L (++)), finishes_app.
    rewrite (finishes_recording (next_span w) t _ ou bu q
               [StartChild t fname "middleware" (next_span w);
                Enter (User fname 3 body) (this_binding this)
                  [arg 0 args; arg 1 args;
                   VFun (WrappedNext (Some (next_span w)) (arg 2 args))]]);
      [lia|].
    intros e He. apply elem_of_app in He as [He|He].
    + destruct (route_name m rt); elem_cases He; by subst e.
    + elem_cases He; by subst e.
Qed.

Lemma silent_handler_leaves_span_open_witness :
  ∃ w2,
    call Host.code 2 (Wrapped3 Host.silent3) VNull
      [Host.req; VRes 0; VFun Host.next] Host.w
      = (Returns VUndefined, w2) ∧
    StartChild 3 "silent3" "middleware" 7 ∈ trace w2 ∧
    finishes 7 (trace w2) = finishes 7 (trace Host.w).
Proof.
  apply (silent_handler_leaves_span_open Host.code 0 "silent3" 2 VNull
           [Host.req; VRes 0; VFun Host.next]
           "POST" (Some {| path := "/items" |})
           (VStr "/shop/items") (VStr "/shop") (VArr [])
           0 3 VUndefined Host.w); reflexivity.
Defined.

(** ** Which registration calls succeed *)

Section MapMMore.

Context {A B : Type} (f : A → result B).

Lemma mapM_result_app_fails pre a post k e :
  mapM f pre = Ok k → f a = Err e → mapM f (pre ++ a :: post) = Err e.
Proof.
  revert k. induction pre as [|x pre IH]; intros k Hpre Ha; cbn [app].
  - by rewrite mapM_result_cons, Ha.
  - rewrite mapM_result_cons in Hpre. rewrite mapM_result_cons.
    destruct (f x) as [y|e']; [|discriminate].
    destruct (mapM f pre) as [k'|e'] eqn:Hk; [|discriminate].
    by rewrite (IH k').
Qed.

End MapMMore.

Lemma mapM_result_id {A} (f : A → result A) l :
  (∀ x, x ∈ l → f x = Ok x) → mapM f l = Ok l.
Proof.
  induction l as [|x l IH]; intros Hid; [done|].
  rewrite mapM_result_cons, (Hid x) by left.
  rewrite IH; [done|]. intros y Hy. apply Hid. by right.
Qed.

Lemma registered_wrappable args :
  (∀ f, registered f args → 2 ≤ func_length f ≤ 4) →
  (∀ a, a ∈ args → wrappable a) ∧
  (∀ l a, VArr l ∈ args → a ∈ l → wrappable a).
Proof.
  intros Hreg. split.
  - intros a Ha f ->. apply Hreg. by left.
  - intros l a Hl Ha f ->. apply Hreg. right. by exists l.
Qed.

Lemma wrapUseArgs_accepts args :
  (∀ f, registered f args → 2 ≤ func_length f ≤ 4) →
  ∃ out, wrapUseArgs args = Ok out.
Proof.
  intros Hreg. destruct (registered_wrappable args Hreg) as [Hargs Hlists].
  destruct (wrapUseArgs_total args Hargs Hlists) as (out & Hout & _).
  by exists out.
Qed.

(** X7: the arguments of a registration call are wrapped, all of them,
    exactly when every function among them and among the elements of the
    lists among them declares 2, 3 or 4 parameters; functions nested more
    deeply are not looked at. *)
Theorem wrapUseArgs_succeeds_iff (args : list value) :
  (∃ out, wrapUseArgs args = Ok out) ↔
  (∀ f, registered f args → 2 ≤ func_length f ≤ 4).
Proof.
  split.
  - intros [out Hout] f Hreg.
    destruct (decide (2 ≤ func_length f ≤ 4)) as [Hok|Hbad]; [done|].
    destruct (wrapUseArgs_rejects f args Hreg Hbad) as (f' & _ & _ & He).
    congruence.
  - intros Hreg. destruct (registered_wrappable args Hreg) as [Hargs Hlists].
    destruct (wrapUseArgs_total args Hargs Hlists) as (out & Hout & _).
    by exists out.
Qed.

(** X8: the error of a registration call is the error of the first
    function, from the left, that [wrap] rejects, whether it is an argument
    or an element of a list argument; what follows it is not looked at. *)
Theorem wrapUseArgs_first_error (pre post : list value) (f : func) :
  (∀ g, registered g pre → 2 ≤ func_length g ≤ 4) →
  ¬ (2 ≤ func_length f ≤ 4) →
  wrapUseArgs (pre ++ VFun f :: post) = Err (arity_error (func_length f)) ∧
  ∀ l1 l2,
    (∀ g, VFun g ∈ l1 → 2 ≤ func_length g ≤ 4) →
    wrapUseArgs (pre ++ VArr (l1 ++ VFun f :: l2) :: post)
      = Err (arity_error (func_length f)).
Proof.
  intros Hpre Hbad.
  destruct (registered_wrappable pre Hpre) as [Hargs Hlists].
  destruct (wrapUseArgs_total pre Hargs Hlists) as (out & Hout & _).
  split.
  - apply (mapM_result_app_fails wrapUseArg pre (VFun f) post out); [done|].
    simpl. by rewrite wrap_rejects.
  - intros l1 l2 Hl1.
    apply (mapM_result_app_fails wrapUseArg pre _ post out); [done|].
    destruct (mapM_result_total wrapUseElem l1) as [k1 Hk1].
    { intros x Hx. apply wrapUseElem_total. intros g ->. by apply Hl1. }
    simpl.
    rewrite (mapM_result_app_fails wrapUseElem l1 (VFun f) l2 k1
               (arity_error (func_length f))); [done|done|].
    simpl. by rewrite wrap_rejects.
Qed.

Lemma wrapUseArgs_first_error_witness :
  wrapUseArgs ([VStr "/a"; VFun Sample.fnA]
               ++ VFun Sample.unary :: [VFun (User "nullary" 0 0)])
    = Err (arity_error 1) ∧
  ∀ l1 l2,
    (∀ g, VFun g ∈ l1 → 2 ≤ func_length g ≤ 4) →
    wrapUseArgs ([VStr "/a"; VFun Sample.fnA]
                 ++ VArr (l1 ++ VFun Sample.unary :: l2)
                      :: [VFun (User "nullary" 0 0)])
      = Err (arity_error 1).
Proof.
  apply (wrapUseArgs_first_error [VStr "/a"; VFun Sample.fnA]
           [VFun (User "nullary" 0 0)] Sample.unary).
  - intros g [Hg|(l & Hl & _)].
    + elem_cases Hg; try discriminate. injection Hg as ->. simpl. lia.
    + elem_cases Hl; discriminate.
  - simpl. lia.
Defined.

(** X9: an argument list with no function among its arguments or among
    the elements of its list arguments is passed on as it is. *)
Theorem wrapUseArgs_without_functions (args : list value) :
  (∀ f, ¬ registered f args) → wrapUseArgs args = Ok args.
Proof.
  intros Hnone. apply mapM_result_id. intros a Ha.
  destruct a; try reflexivity.
  - simpl. rewrite mapM_result_id; [done|].
    intros x Hx. destruct x; try reflexivity.
    destruct (Hnone f). right. by exists elems.
  - destruct (Hnone f). by left.
Qed.

Lemma wrapUseArgs_without_functions_witness :
  wrapUseArgs [VStr "/static"; VArr [VStr "/a"; VArr [VFun Sample.unary]]]
    = Ok [VStr "/static"; VArr [VStr "/a"; VArr [VFun Sample.unary]]].
Proof.
  apply (wrapUseArgs_without_functions
           [VStr "/static"; VArr [VStr "/a"; VArr [VFun Sample.unary]]]).
  intros f [Hf|(l & Hl & Hf)].
  - elem_cases Hf; discriminate.
  - elem_cases Hl; try discriminate. injection Hl as ->.
    elem_cases Hf; discriminate.
Defined.

(** ** Patching a method the application lacks *)

(** X10: patching a method the application object does not have succeeds
    and installs a function all the same; calling that function throws a
    TypeError whatever the arguments are, before any of them is wrapped. *)
Theorem patched_missing_method_throws code n (app : nat) (method : string)
    (this : value) (args : list value) (w : world) :
  member w app method = VUndefined →
  ∃ w',
    patchMiddleware app method w = (Returns app, w') ∧
    member w' app method = VFun (Patched VUndefined) ∧
    ∀ w'', call code (S n) (Patched VUndefined) this args w''
           = (Throws VTypeError, w'').
Proof.
  intros Hmissing. rewrite patchMiddleware_eq, Hmissing.
  eexists. split; [reflexivity|].
  split; [apply member_update_app_eq | done].
Qed.

Lemma patched_missing_method_throws_witness :
  ∃ w',
    patchMiddleware 0 "get" Host.w = (Returns 0, w') ∧
    member w' 0 "get" = VFun (Patched VUndefined) ∧
    ∀ w'', call Host.code 3 (Patched VUndefined) VNull
             [VFun Sample.unary] w''
           = (Throws VTypeError, w'').
Proof.
  apply (patched_missing_method_throws Host.code 2 0 "get" VNull
           [VFun Sample.unary] Host.w).
  reflexivity.
Defined.

(** ** What setup changes *)

Lemma key_inj m m' : Verb.key m = Verb.key m' → m = m'.
Proof. by destruct m, m'. Qed.

Lemma setupOnce_with_app app methods w :
  ∃ w',
    setupOnce {| _app := Some app; _methods := methods |} w
      = (Returns (), w') ∧
    routeMiddlewares app methods
      (update_app app
         (fun o => <["use" := VFun (Patched (member w app "use"))]> o) w)
      = (Returns (), w').
Proof.
  unfold setupOnce, instrumentMiddlewares. simpl.
  unfold mbind at 1, M_bind at 1. unfold mbind at 1, M_bind at 1.
  rewrite patchMiddleware_eq. unfold mret at 1, M_ret at 1.
  destruct (routeMiddlewares_frame app methods (update_app app
    (fun o => <["use" := VFun (Patched (member w app "use"))]> o) w))
    as (w' & Hroute & _).
  exists w'. by rewrite Hroute.
Qed.

(** X11: setup with an application logs nothing, touches no other
    application object, no transaction and no response, and leaves every
    property of the application other than [use] and the configured
    methods as it was. *)
Theorem setupOnce_frame (app : nat) (methods : option (list Verb.Method))
    (w : world) :
  ∃ w',
    setupOnce {| _app := Some app; _methods := methods |} w
      = (Returns (), w') ∧
    trace w' = trace w ∧
    transactions w' = transactions w ∧ responses w' = responses w ∧
    (∀ a, a ≠ app → apps w' !! a = apps w !! a) ∧
    (∀ k, k ≠ "use" → (∀ m, m ∈ default [] methods → k ≠ Verb.key m) →
          member w' app k = member w app k).
Proof.
  destruct (setupOnce_with_app app methods w) as (w' & Hsetup & Hroute).
  destruct (routeMiddlewares_frame app methods (update_app app
    (fun o => <["use" := VFun (Patched (member w app "use"))]> o) w))
    as (w1 & Hroute1 & Hmem & Hother & Htx & Hres & Htr).
  rewrite Hroute in Hroute1. injection Hroute1 as <-.
  exists w'. split; [done|]. repeat split; try done.
  - intros a Ha. rewrite Hother by done.
    unfold update_app. simpl. by rewrite lookup_insert_ne.
  - intros k Huse Hk. rewrite Hmem by done.
    by apply member_update_app_ne.
Qed.

Lemma forEach_patch_configured app methods w :
  NoDup methods →
  ∃ w',
    forEach methods (fun method =>
      patchMiddleware app (Verb.key method);; mret ()) w = (Returns (), w') ∧
    ∀ m, m ∈ methods →
         member w' app (Verb.key m)
           = VFun (Patched (member w app (Verb.key m))).
Proof.
  intros Hnodup. revert w.
  induction Hnodup as [|m0 methods Hnotin Hnodup IH]; intros w.
  - exists w. split; [done|]. intros m Hm. by apply elem_of_nil in Hm.
  - simpl. unfold mbind at 1, M_bind at 1.
    unfold mbind at 1, M_bind at 1. rewrite patchMiddleware_eq.
    unfold mret at 1, M_ret at 1.
    set (w1 := update_app app _ w).
    destruct (IH w1) as (w' & Hrest & Hpatched).
    destruct (routeMiddlewares_frame app (Some methods) w1)
      as (w2 & Hroute & Hmem & _).
    unfold routeMiddlewares in Hroute. simpl in Hroute, Hmem.
    rewrite Hrest in Hroute. injection Hroute as <-.
    exists w'. split; [done|].
    intros m Hm. apply elem_of_cons in Hm as [->|Hm].
    + rewrite Hmem.
      * apply member_update_app_eq.
      * intros m' Hm' Heq. apply key_inj in Heq as ->. done.
    + rewrite (Hpatched m Hm). do 2 f_equal.
      apply member_update_app_ne. intros Heq. apply key_inj in Heq as ->.
      done.
Qed.

(** X12: after setup with an application and a list of distinct
    verb-specific methods, each configured method of the application is a
    patched function around the function that was there before, and so is
    [use]. *)
Theorem configured_methods_are_patched (app : nat)
    (methods : option (list Verb.Method)) (w : world) :
  NoDup (default [] methods) →
  ∃ w',
    setupOnce {| _app := Some app; _methods := methods |} w
      = (Returns (), w') ∧
    member w' app "use" = VFun (Patched (member w app "use")) ∧
    ∀ m, m ∈ default [] methods →
         member w' app (Verb.key m)
           = VFun (Patched (member w app (Verb.key m))).
Proof.
  intros Hnodup.
  destruct (setupOnce_with_app app methods w) as (w' & Hsetup & Hroute).
  exists w'. split; [done|].
  set (w1 := update_app app
    (fun o => <["use" := VFun (Patched (member w app "use"))]> o) w) in *.
  split.
  - destruct (routeMiddlewares_frame app methods w1)
      as (w2 & Hroute2 & Hmem & _).
    rewrite Hroute in Hroute2. injection Hroute2 as <-.
    rewrite Hmem; [apply member_update_app_eq|].
    intros m _ Heq. by apply (key_not_use m).
  - destruct (forEach_patch_configured app (default [] methods) w1 Hnodup)
      as (w2 & Hrest & Hpatched).
    unfold routeMiddlewares in Hroute. simpl in Hroute.
    rewrite Hroute in Hrest. injection Hrest as <-.
    intros m Hm. rewrite (Hpatched m Hm). do 2 f_equal.
    apply member_update_app_ne, key_not_use.
Qed.

Lemma configured_methods_are_patched_witness :
  ∃ w',
    setupOnce {| _app := Some 0; _methods := Some [Verb.get; Verb.post] |}
      Sample.w = (Returns (), w') ∧
    member w' 0 "use" = VFun (Patched (member Sample.w 0 "use")) ∧
    ∀ m, m ∈ [Verb.get; Verb.post] →
         member w' 0 (Verb.key m)
           = VFun (Patched (member Sample.w 0 (Verb.key m))).
Proof.
  apply (configured_methods_are_patched 0 (Some [Verb.get; Verb.post])
           Sample.w).
  simpl. apply NoDup_cons. split.
  - intros H. elem_cases H. discriminate.
  - apply NoDup_cons. split; [|apply NoDup_nil_2].
    intros H. by apply elem_of_nil in H.
Defined.

(** ** Setting up twice *)

Lemma wrapped_arity fn g : wrap fn = Ok g → 2 ≤ func_length g ≤ 4.
Proof.
  intros Hg.
  destruct (wrap_Ok_inv fn g Hg) as [[_ ->]|[[_ ->]|[_ ->]]]; simpl; lia.
Qed.

Lemma wrapUseArgs_output_registered args out f :
  wrapUseArgs args = Ok out → registered f out → 2 ≤ func_length f ≤ 4.
Proof.
  intros Hout Hreg.
  assert (Forall2 substituted_arg args out) as Hsub.
  { apply (mapM_result_Forall2 wrapUseArg substituted_arg args); [|done].
    intros x y _. apply wrapUseArg_substituted. }
  destruct Hreg as [Hin|(l & Hl & Hin)].
  - apply list_elem_of_lookup in Hin as [i Hi].
    destruct (Forall2_lookup_r _ _ _ _ _ Hsub Hi) as (a & _ & Ha).
    destruct a; simpl in Ha; try discriminate.
    + by destruct Ha as (l' & [=] & _).
    + destruct Ha as (g & Hg & [= ->]). by apply (wrapped_arity f0).
  - apply list_elem_of_lookup in Hl as [i Hi].
    destruct (Forall2_lookup_r _ _ _ _ _ Hsub Hi) as (a & _ & Ha).
    destruct a; simpl in Ha; try discriminate.
    + destruct Ha as (l' & [= <-] & Hl').
      apply list_elem_of_lookup in Hin as [j Hj].
      destruct (Forall2_lookup_r _ _ _ _ _ Hl' Hj) as (b & _ & Hb).
      destruct b; simpl in Hb; try discriminate.
      destruct Hb as (g & Hg & [= ->]). by apply (wrapped_arity f0).
    + by destruct Ha as (g & _ & [=]).
Qed.

Lemma setupOnce_patches_use app methods w :
  ∃ w',
    setupOnce {| _app := Some app; _methods := methods |} w
      = (Returns (), w') ∧
    member w' app "use" = VFun (Patched (member w app "use")).
Proof.
  destruct (setupOnce_with_app app methods w) as (w' & Hsetup & Hroute).
  destruct (routeMiddlewares_frame app methods (update_app app
    (fun o => <["use" := VFun (Patched (member w app "use"))]> o) w))
    as (w2 & Hroute2 & Hmem & _).
  rewrite Hroute in Hroute2. injection Hroute2 as <-.
  exists w'. split; [done|].
  rewrite Hmem; [apply member_update_app_eq|].
  intros m _ Heq. by apply (key_not_use m).
Qed.

(** X13: setup is not idempotent.  Set up twice on the same application,
    [use] is a patched function around a patched function around the
    original; a call of it that the single patch accepts is accepted
    again, and reaches the original method with every handler wrapped
    twice. *)
Theorem setupOnce_twice_double_wraps code n (app : nat)
    (methods : option (list Verb.Method)) (o : func) (this : value)
    (args out : list value) (w : world) :
  member w app "use" = VFun o →
  wrapUseArgs args = Ok out →
  ∃ w2 out2,
    (setupOnce {| _app := Some app; _methods := methods |};;
     setupOnce {| _app := Some app; _methods := methods |}) w
      = (Returns (), w2) ∧
    member w2 app "use" = VFun (Patched (VFun (Patched (VFun o)))) ∧
    wrapUseArgs out = Ok out2 ∧
    ∀ w', call code (S (S n)) (Patched (VFun (Patched (VFun o)))) this args w'
          = call code n o (this_binding this) out2 w'.
Proof.
  intros Huse Hout.
  destruct (setupOnce_patches_use app methods w) as (w1 & Hsetup1 & Huse1).
  destruct (setupOnce_patches_use app methods w1) as (w2 & Hsetup2 & Huse2).
  destruct (wrapUseArgs_accepts out) as [out2 Hout2].
  { intros f. by apply (wrapUseArgs_output_registered args). }
  exists w2, out2. split.
  { by erewrite M_bind_returns by apply Hsetup1. }
  split; [by rewrite Huse2, Huse1, Huse|].
  split; [done|].
  intros w'.
  by rewrite call_Patched, Hout, call_Patched, Hout2, this_binding_idemp.
Qed.

Lemma setupOnce_twice_double_wraps_witness :
  ∃ w2 out2,
    (setupOnce {| _app := Some 0; _methods := None |};;
     setupOnce {| _app := Some 0; _methods := None |}) Host.w
      = (Returns (), w2) ∧
    member w2 0 "use" = VFun (Patched (VFun (Patched (VFun Host.use)))) ∧
    wrapUseArgs [VFun (Wrapped3 Host.silent3)] = Ok out2 ∧
    ∀ w', call Host.code 4 (Patched (VFun (Patched (VFun Host.use)))) VNull
            [VFun Host.silent3] w'
          = call Host.code 2 Host.use VGlobal out2 w'.
Proof.
  apply (setupOnce_twice_double_wraps Host.code 2 0 None Host.use VNull
           [VFun Host.silent3] [VFun (Wrapped3 Host.silent3)] Host.w);
    reflexivity.
Defined.

Example double_wrapped_handler :
  (call Host.code 4 (Patched (VFun (Patched (VFun Host.use)))) VNull
     [VFun Host.silent3] Host.w).1
  = Returns (VArr [VFun (Wrapped3 (Wrapped3 Host.silent3))]).
Proof. vm_compute. reflexivity. Qed.

(** ** What a wrapper keeps before it calls the handler *)

























Example wrapper_entry_keeps_other_transactions :
  let w' := (handler_entry (Wrapped2 Host.failing2) [Host.req; VRes 0]
               Host.w).2 in
  apps w' = apps Host.w ∧ attached w' 0 = Some 3 ∧
  transactions w' !! 4 = transactions Host.w !! 4 ∧
  is_Some (transactions w' !! 3).
Proof. vm_compute. eauto. Qed.

(** ** A handler that calls its continuation *)




Example single_continuation_call_trace :
  (call Sample.code 4 (Wrapped3 Sample.fnB) VNull
     [Sample.req; VRes 0; VFun Sample.next] Sample.w).1
    = Returns VUndefined ∧
  finishes 0
    (trace (call Sample.code 4 (Wrapped3 Sample.fnB) VNull
              [Sample.req; VRes 0; VFun Sample.next] Sample.w).2) = 1.
Proof. split; vm_compute; reflexivity. Qed.
